(** * relaxed-poetry: repository pool and legacy index client

    A shallow embedding of [src/poetry/repositories/pool.py] and
    [src/poetry/repositories/legacy_repository.py], and the properties
    of the pool's lookup table, its tiered scans, and the legacy client's
    version filtering, caching and HTTP status triage. *)

From Stdlib Require Import ZArith Ascii String Lia.
From stdpp Require Import gmap strings list fin_maps pretty.

Local Open Scope string_scope.
Local Open Scope list_scope.
Local Open Scope nat_scope.

(** ** Python values shared by both modules *)

(** [str.lower()], on the ASCII range (bytes outside [A-Z] are kept). *)
Definition lower_ascii (c : ascii) : ascii :=
  let n := nat_of_ascii c in
  if (65 <=? n) && (n <=? 90) then ascii_of_nat (n + 32) else c.

Fixpoint lower (s : string) : string :=
  match s with
  | EmptyString => EmptyString
  | String c s' => String (lower_ascii c) (lower s')
  end.

(** The exceptions the two modules raise or let through. *)
Inductive exn : Type :=
| ValueError (msg : string)
| RuntimeError (msg : string)
| IndexError
| PackageNotFound (msg : string)
| HTTPError (status : Z)
| RepositoryError (cause : exn)
| OtherError (what : string).

(** The version library ([poetry.core.semver]) is an external
    collaborator: versions and constraints are consumed through this
    interface only. *)
Class Semver := {
  Version : Type;
  Version_eq_dec :: EqDecision Version;
  (** [Version.is_unstable()] *)
  is_unstable : Version → bool;
  (** [Version.parse(text)]; [None] stands for its [ValueError] *)
  Version_parse : string → option Version;
  VersionConstraint : Type;
  (** [parse_constraint(text)] *)
  parse_constraint : string → exn + VersionConstraint;
  (** [isinstance(c, VersionRange)], with [(c.min, c.max)] when it is *)
  as_version_range : VersionConstraint → option (option Version * option Version);
  (** [c.is_any()] *)
  is_any : VersionConstraint → bool;
  (** [c.allows(version)] *)
  allows : VersionConstraint → Version → bool;
  (** [str(c)] *)
  constraint_str : VersionConstraint → string
}.

(** [dependency.constraint] is read dynamically: it may be [None], a raw
    string, or an already parsed constraint. *)
Inductive raw_constraint `{Semver} : Type :=
| ConstraintNone
| ConstraintText (text : string)
| ConstraintObject (c : VersionConstraint).

Record Dependency `{Semver} := mkDependency {
  dep_name : string;
  dep_constraint : raw_constraint;
  dep_source_name : option string;
  dep_allows_prereleases : bool
}.

Record Package `{Semver} := mkPackage {
  pkg_name : string;
  pkg_version : Version;
  pkg_source_type : option string;
  pkg_source_reference : option string;
  pkg_source_url : option string
}.

(** The [project] argument of [package]: only the [isinstance] test on it
    is observed. *)
Inductive project_arg : Type :=
| ManagedProject (path : string)
| NotAProject.

Definition is_ManagedProject (p : project_arg) : bool :=
  match p with ManagedProject _ => true | NotAProject => false end.

(** A name between double quotes, as the messages print it. *)
Definition quoted (s : string) : string :=
  String (ascii_of_nat 34) s +:+ String (ascii_of_nat 34) EmptyString.

Definition is_not_None {A} (x : option A) : bool :=
  match x with Some _ => true | None => false end.

(** Python's [list.insert(i, x)] for [i >= 0]: past the end it appends. *)
Definition list_insert_at {A} (i : nat) (x : A) (l : list A) : list A :=
  take i l ++ x :: drop i l.
Global Arguments list_insert_at : simpl never.

(** Python's [del l[i]] for [i >= 0]: out of range raises [IndexError]. *)
Definition list_del {A} (i : nat) (l : list A) : exn + list A :=
  if i <? length l then inr (take i l ++ drop (S i) l) else inl IndexError.

(** ** pool.py *)
Module Pool.
Section Pool.
Context `{Semver}.

(** What the pool sees of a repository client: its name and the outcome
    of each call on it. *)
Record Repository := mkRepository {
  repo_name : option string;
  repo_package :
    string → string → project_arg → option (list string) → exn + option Package;
  repo_find_packages : Dependency → exn + list Package
}.

#[warnings="-register-all"]
Inductive Pool : Type := mkPool {
  _lookup : gmap (option string) nat;
  _repositories : list Repository;
  _default : bool;
  _has_primary_repositories : bool;
  _secondary_start_idx : option nat;
  _parent : option Pool;
  _ignore_repository_names : bool;
  _packages : list Package
}.

Definition has_default (self : Pool) : bool := _default self.

Definition has_primary_repositories (self : Pool) : bool :=
  _has_primary_repositories self.

Definition has_repository (self : Pool) (name : option string) : bool :=
  bool_decide (is_Some (_lookup self !! (lower <$> name))).

(** [Pool.repository(name)] *)
Definition repository (self : Pool) (name : option string) : exn + Repository :=
  let name := lower <$> name in
  match _lookup self !! name with
  | Some idx =>
      match _repositories self !! idx with
      | Some r => inr r
      | None => inl IndexError
      end
  | None =>
      inl (ValueError ("Repository " +:+ quoted (default "None" name) +:+ " does not exist."))
  end.

Definition repository_name (r : Repository) : option string :=
  lower <$> repo_name r.

(** [Pool.add_repository(repository, default, secondary)] *)
Definition add_repository (self : Pool) (repository : Repository)
    (default secondary : bool) : exn + Pool :=
  let repository_name := repository_name repository in
  if default then
    if has_default self then
      inl (ValueError "Only one repository can be the default")
    else
      inr {| _default := true;
             _repositories := list_insert_at 0 repository (_repositories self);
             _secondary_start_idx := S <$> _secondary_start_idx self;
             _lookup := <[repository_name := 0]> (S <$> _lookup self);
             _has_primary_repositories := _has_primary_repositories self;
             _parent := _parent self;
             _ignore_repository_names := _ignore_repository_names self;
             _packages := _packages self |}
  else if secondary then
    let start :=
      match _secondary_start_idx self with
      | None => Some (length (_repositories self))
      | Some i => Some i
      end in
    let repositories := _repositories self ++ [repository] in
    inr {| _secondary_start_idx := start;
           _repositories := repositories;
           _lookup := <[repository_name := length repositories - 1]> (_lookup self);
           _default := _default self;
           _has_primary_repositories := _has_primary_repositories self;
           _parent := _parent self;
           _ignore_repository_names := _ignore_repository_names self;
           _packages := _packages self |}
  else
    match _secondary_start_idx self with
    | None =>
        let repositories := _repositories self ++ [repository] in
        inr {| _has_primary_repositories := true;
               _repositories := repositories;
               _lookup := <[repository_name := length repositories - 1]> (_lookup self);
               _secondary_start_idx := None;
               _default := _default self;
               _parent := _parent self;
               _ignore_repository_names := _ignore_repository_names self;
               _packages := _packages self |}
    | Some start =>
        inr {| _has_primary_repositories := true;
               _repositories := list_insert_at start repository (_repositories self);
               _lookup :=
                 <[repository_name := start]>
                   ((λ idx, if idx <? start then idx else idx + 1) <$> _lookup self);
               _secondary_start_idx := Some (start + 1);
               _default := _default self;
               _parent := _parent self;
               _ignore_repository_names := _ignore_repository_names self;
               _packages := _packages self |}
    end.

(** [Pool.remove_repository(repository_name)] *)
Definition remove_repository (self : Pool) (repository_name : option string)
    : exn + Pool :=
  let repository_name := lower <$> repository_name in
  match _lookup self !! repository_name with
  | Some idx =>
      match list_del idx (_repositories self) with
      | inl e => inl e
      | inr repositories =>
          inr {| _repositories := repositories;
                 _lookup := _lookup self;
                 _default := _default self;
                 _has_primary_repositories := _has_primary_repositories self;
                 _secondary_start_idx := _secondary_start_idx self;
                 _parent := _parent self;
                 _ignore_repository_names := _ignore_repository_names self;
                 _packages := _packages self |}
      end
  | None => inr self
  end.

(** The empty pool that [Pool.__init__] starts from. *)
Definition empty_pool (parent : option Pool) : Pool :=
  {| _lookup := ∅;
     _repositories := [];
     _default := false;
     _has_primary_repositories := false;
     _secondary_start_idx := None;
     _parent := parent;
     _ignore_repository_names := false;
     _packages := [] |}.

(** [Pool.__init__(repositories, ignore_repository_names, parent)]: each
    given repository is added as a primary one. *)
Definition init (repositories : list Repository)
    (ignore_repository_names : bool) (parent : option Pool) : exn + Pool :=
  match
    foldl (λ acc r, match acc with
                    | inl e => inl e
                    | inr self => add_repository self r false false
                    end)
          (inr (empty_pool parent)) repositories
  with
  | inl e => inl e
  | inr self =>
      inr {| _ignore_repository_names := ignore_repository_names;
             _lookup := _lookup self;
             _repositories := _repositories self;
             _default := _default self;
             _has_primary_repositories := _has_primary_repositories self;
             _secondary_start_idx := _secondary_start_idx self;
             _parent := _parent self;
             _packages := _packages self |}
  end.

Definition with_parent (self : Pool) (parent : Pool) : Pool :=
  {| _parent := Some parent;
     _lookup := _lookup self;
     _repositories := _repositories self;
     _default := _default self;
     _has_primary_repositories := _has_primary_repositories self;
     _secondary_start_idx := _secondary_start_idx self;
     _ignore_repository_names := _ignore_repository_names self;
     _packages := _packages self |}.

Definition record_package (self : Pool) (package : Package) : Pool :=
  {| _packages := _packages self ++ [package];
     _lookup := _lookup self;
     _repositories := _repositories self;
     _default := _default self;
     _has_primary_repositories := _has_primary_repositories self;
     _secondary_start_idx := _secondary_start_idx self;
     _parent := _parent self;
     _ignore_repository_names := _ignore_repository_names self |}.

(** The loop of [Pool.package] over [self._repositories]: the clients
    asked, in order, and how the loop ended ([inr None]: it ran to the
    end without returning). A client's [PackageNotFound] and a falsy
    return value both move on to the next client. *)
Fixpoint scan_package (repos : list Repository) (name version : string)
    (project : project_arg) (extras : option (list string))
    : list Repository * (exn + option Package) :=
  match repos with
  | [] => ([], inr None)
  | repo :: rest =>
      match repo_package repo name version project extras with
      | inl (PackageNotFound _) =>
          let '(asked, r) := scan_package rest name version project extras in
          (repo :: asked, r)
      | inl e => ([repo], inl e)
      | inr (Some package) => ([repo], inr (Some package))
      | inr None =>
          let '(asked, r) := scan_package rest name version project extras in
          (repo :: asked, r)
      end
  end.

(** [Pool.package(name, version, project, extras, repository)]. The
    result lists the clients asked, in call order, then the raised
    exception or the returned value with the pool as the call leaves it. *)
Fixpoint package (self : Pool) (name version : string) (project : project_arg)
    (extras : option (list string)) (repository : option string) {struct self}
    : list Repository * (exn + option Package * Pool) :=
  match self with
  | mkPool lookup repositories _ _ _ parent ignore _ =>
    if negb (is_ManagedProject project) then ([], inl (RuntimeError "HERE: "))
    else
      let repository := lower <$> repository in
      (* the tail of the method, reached when nothing above returned *)
      let fall_through (asked : list Repository) :=
        match parent with
        | Some parent =>
            let '(asked', r) := package parent name version project extras repository in
            (asked ++ asked',
             match r with
             | inl e => inl e
             | inr (p, parent') => inr (p, with_parent self parent')
             end)
        | None =>
            (asked,
             inl (PackageNotFound
                    ("Package " +:+ name +:+ " (" +:+ version +:+ ") not found.")))
        end in
      if is_not_None repository && bool_decide (lookup !! repository = None)
         && negb ignore then
        match parent with
        | Some parent =>
            let '(asked, r) :=
              package parent name version project extras repository in
            (asked,
             match r with
             | inl e => inl e
             | inr (p, parent') => inr (p, with_parent self parent')
             end)
        | None =>
            ([], inl (ValueError
                        ("Repository " +:+ quoted (default "None" repository)
                         +:+ " does not exist.")))
        end
      else if is_not_None repository && negb ignore then
        match Pool.repository self repository with
        | inl e => ([], inl e)
        | inr repo =>
            match repo_package repo name version project extras with
            | inl (PackageNotFound _) => fall_through [repo]
            | inl e => ([repo], inl e)
            | inr p => ([repo], inr (p, self))
            end
        end
      else
        match scan_package repositories name version project extras with
        | (asked, inl e) => (asked, inl e)
        | (asked, inr (Some p)) => (asked, inr (Some p, record_package self p))
        | (asked, inr None) => fall_through asked
        end
  end.

(** The loop of [Pool.find_packages] over the sliced repository list: it
    stops at the first client with a non-empty answer. *)
Fixpoint scan_find_packages (repos : list Repository) (dependency : Dependency)
    : list Repository * (exn + list Package) :=
  match repos with
  | [] => ([], inr [])
  | repo :: rest =>
      match repo_find_packages repo dependency with
      | inl e => ([repo], inl e)
      | inr found_packages =>
          if 0 <? length found_packages then ([repo], inr ([] ++ found_packages))
          else
            let '(asked, r) := scan_find_packages rest dependency in
            (repo :: asked, r)
      end
  end.

(** [l[:stop]] where [stop] may be [None]. *)
Definition slice_to {A} (stop : option nat) (l : list A) : list A :=
  match stop with
  | None => l
  | Some n => take n l
  end.

(** [Pool.find_packages(dependency)], with the clients asked. *)
Fixpoint find_packages (self : Pool) (dependency : Dependency) {struct self}
    : list Repository * (exn + list Package) :=
  match self with
  | mkPool lookup repositories _ _ secondary_start_idx parent ignore _ =>
    let repository := lower <$> dep_source_name dependency in
    if is_not_None repository && bool_decide (lookup !! repository = None)
       && negb ignore then
      match parent with
      | Some parent => find_packages parent dependency
      | None =>
          ([], inl (ValueError
                      ("Repository " +:+ quoted (default "None" repository)
                       +:+ " does not exist.")))
      end
    else if is_not_None repository && negb ignore then
      match Pool.repository self repository with
      | inl e => ([], inl e)
      | inr repo => ([repo], repo_find_packages repo dependency)
      end
    else
      match
        scan_find_packages (slice_to secondary_start_idx repositories) dependency
      with
      | (asked, inl e) => (asked, inl e)
      | (asked, inr packages) =>
          match parent with
          | Some parent =>
              if length packages =? 0 then
                let '(asked', r) := find_packages parent dependency in
                (asked ++ asked', r)
              else (asked, inr packages)
          | None => (asked, inr packages)
          end
      end
  end.

End Pool.
End Pool.

(** ** legacy_repository.py *)

(** An [<a>] element as the page reads it: [anchor.get("href")] and
    [anchor.get("data-requires-python")]. *)
Record Anchor := mkAnchor {
  anchor_href : option string;
  anchor_requires_python : option string
}.

(** [Link(url, page, requires_python=...)] *)
Record Link := mkLink {
  link_url : string;
  link_requires_python : option string
}.

(** A [requests] response, as far as the client reads it. Header names
    are looked up without regard to case. *)
Record Response := mkResponse {
  status_code : Z;
  response_url : string;
  response_content : string;
  response_headers : list (string * string)
}.

(** The libraries behind a page ([cgi], [html5lib], [urllib], [html],
    poetry-core's [Link], [poetry.utils.patterns]), taken as given. *)
Class IndexLib := {
  (** [cgi.parse_header(value)[1].get("charset")] *)
  content_type_charset : string → option string;
  (** [html5lib.parse(content, transport_encoding=...).findall(".//a")] *)
  parsed_anchors : string → option string → list Anchor;
  (** [urllib.parse.urljoin(base, href)] *)
  urljoin : string → string → string;
  (** [html.unescape] *)
  unescape : string → string;
  (** [link.filename], [link.ext] and [link.splitext()[0]] of a link URL *)
  link_filename : string → string;
  link_ext : string → string;
  link_stem : string → string;
  (** [wheel_file_re.match(filename).group("ver")], [None] on no match *)
  wheel_file_ver : string → option string
}.

(** [response.raise_for_status()] of the [requests] library, as a test on
    the status code: it raises [requests.HTTPError] for a client error or
    a server error, that is for a status from 400 to 599, and returns for
    every other status. *)
Definition raise_for_status (status : Z) : bool :=
  ((400 <=? status) && (status <? 600))%Z.

Definition header_get (headers : list (string * string)) (name : string)
    : option string :=
  snd <$> List.find (λ kv, bool_decide (lower (fst kv) = lower name)) headers.

Definition endswith (s suffix : string) : bool :=
  let n := String.length s in
  let k := String.length suffix in
  (k <=? n) && bool_decide (substring (n - k) k s = suffix).

Module Page.
Section Page.
Context `{Semver} `{IndexLib}.

Definition SUPPORTED_FORMATS : list string :=
  [".tar.gz"; ".whl"; ".zip"; ".tar.bz2"; ".tar.xz"; ".tar.Z"; ".tar"].

Record Page := mkPage {
  _url : string;
  _content : string;
  _encoding : option string
}.

(** [Page.__init__(url, content, headers)] *)
Definition init (url content : string) (headers : list (string * string)) : Page :=
  let url := if endswith url "/" then url else url +:+ "/" in
  let encoding :=
    match header_get headers "Content-Type" with
    | Some value => content_type_charset value
    | None => None
    end in
  {| _url := url; _content := content; _encoding := encoding |}.

Definition is_alnum (c : ascii) : bool :=
  let n := nat_of_ascii c in
  ((48 <=? n) && (n <=? 57)) || ((65 <=? n) && (n <=? 90))
  || ((97 <=? n) && (n <=? 122)).

Definition is_digit (c : ascii) : bool :=
  let n := nat_of_ascii c in (48 <=? n) && (n <=? 57).

Definition char_in (c : ascii) (set : string) : bool :=
  bool_decide (c ∈ list_ascii_of_string set).

(** The character class of [_clean_re] that is left alone:
    [[a-z0-9$&+,/:;=?@.#%_\\|-]], ignoring case. *)
Definition clean_safe (c : ascii) : bool :=
  is_alnum c || char_in c "$&+,/:;=?@.#%_\|-".

Definition hex_digit (n : nat) : ascii :=
  if n <? 10 then ascii_of_nat (48 + n) else ascii_of_nat (87 + n).

(** ["%%%2x" % ord(c)]: [%] and the lower-case hexadecimal code, padded
    with a blank to two columns. *)
Definition percent_2x (c : ascii) : string :=
  let n := nat_of_ascii c in
  String "%" (String (if n <? 16 then " "%char else hex_digit (n / 16))
                     (String (hex_digit (n mod 16)) EmptyString)).

(** [Page.clean_link(url)] *)
Fixpoint clean_link (url : string) : string :=
  match url with
  | EmptyString => EmptyString
  | String c rest =>
      if clean_safe c then String c (clean_link rest)
      else percent_2x c +:+ clean_link rest
  end.

(** [Page.links] *)
Definition links (self : Page) : list Link :=
  omap (λ anchor,
          match anchor_href anchor with
          | Some href =>
              if bool_decide (href = "") then None
              else
                let url := clean_link (urljoin (_url self) href) in
                let pyrequire :=
                  match anchor_requires_python anchor with
                  | Some p => if bool_decide (p = "") then None else Some (unescape p)
                  | None => None
                  end in
                let link := {| link_url := url; link_requires_python := pyrequire |} in
                if bool_decide (link_ext url ∈ SUPPORTED_FORMATS) then Some link
                else None
          | None => None
          end)
       (parsed_anchors (_content self) (_encoding self)).

(** The two character classes of [VERSION_REGEX], ignoring case. *)
Definition name_char (c : ascii) : bool := is_alnum c || char_in c "_-.".
Definition version_char (c : ascii) : bool := is_alnum c || char_in c "_.!+-".

Fixpoint take_while (f : ascii → bool) (s : string) : string :=
  match s with
  | String c rest => if f c then String c (take_while f rest) else EmptyString
  | EmptyString => EmptyString
  end.

Definition starts_with_digit (s : string) : bool :=
  match s with String c _ => is_digit c | EmptyString => false end.

(** After a non-empty run of name characters: the first hyphen that a
    digit follows ends the lazy first group; group 2 is the longest run
    of version characters from there. *)
Fixpoint version_after_name (s : string) : option string :=
  match s with
  | String c rest =>
      if bool_decide (c = "-"%char) && starts_with_digit rest
      then Some (take_while version_char rest)
      else if name_char c then version_after_name rest
      else None
  | EmptyString => None
  end.

(** [VERSION_REGEX.match(info).group(2)], [None] when there is no match. *)
Definition VERSION_REGEX_group2 (info : string) : option string :=
  match info with
  | String c rest => if name_char c then version_after_name rest else None
  | EmptyString => None
  end.

(** [Page.link_version(link)] *)
Definition link_version (link : Link) : option Version :=
  match wheel_file_ver (link_filename (link_url link)) with
  | Some version => Version_parse version
  | None =>
      match VERSION_REGEX_group2 (link_stem (link_url link)) with
      | None => None
      | Some version => Version_parse version
      end
  end.

(** The loop of [Page.versions]: [seen] is the set built so far. *)
Fixpoint versions_loop (seen : list Version) (links : list Link) : list Version :=
  match links with
  | [] => []
  | link :: rest =>
      match link_version link with
      | None => versions_loop seen rest
      | Some version =>
          if bool_decide (version ∈ seen) then versions_loop seen rest
          else version :: versions_loop (version :: seen) rest
      end
  end.

(** [Page.versions] *)
Definition versions (self : Page) : list Version :=
  versions_loop [] (links self).

(** [Page.links_for_version(version)] *)
Definition links_for_version (self : Page) (version : Version) : list Link :=
  filter (λ link, link_version link = Some version) (links self).

End Page.
End Page.

Module LegacyRepository.
Section LegacyRepository.
Context `{Semver} `{IndexLib}.

Inductive level : Type := debug | warning.

(** The client's own state: its name and base URL, the entries of the
    ["matches"] cache store, and the calls made to [self._log]. *)
Record LegacyRepository := mkLegacyRepository {
  _name : string;
  _url : string;
  _matches : gmap string (nat * list Version);
  _logged : list (level * string)
}.

(** [url.rstrip("/")] *)
Fixpoint rstrip_slash (s : string) : string :=
  match s with
  | EmptyString => EmptyString
  | String c rest =>
      let r := rstrip_slash rest in
      if bool_decide (c = "/"%char) && bool_decide (r = "") then EmptyString
      else String c r
  end.

(** [LegacyRepository.__init__(name, url, ...)]: the reserved name is
    refused, the caches start empty. *)
Definition init (name url : string) : exn + LegacyRepository :=
  if bool_decide (name = "pypi") then
    inl (ValueError "The name [pypi] is reserved for repositories")
  else
    inr {| _name := name; _url := rstrip_slash url; _matches := ∅; _logged := [] |}.

(** Modelled from the spec: the ["matches"] store of the external cache
    manager, a key/value store with get/put/has where an entry written at
    time [T] with a time to live of [n] units is read back before [T + n]
    and is absent from then on. An entry is kept with its expiry time. *)
Definition store_has (now : nat) (store : gmap string (nat * list Version))
    (key : string) : bool :=
  match store !! key with
  | Some (expires, _) => now <? expires
  | None => false
  end.

Definition store_get (now : nat) (store : gmap string (nat * list Version))
    (key : string) : option (list Version) :=
  match store !! key with
  | Some (expires, value) => if now <? expires then Some value else None
  | None => None
  end.

Definition store_put (now : nat) (store : gmap string (nat * list Version))
    (key : string) (value : list Version) (ttl : nat)
    : gmap string (nat * list Version) :=
  <[key := (now + ttl, value)]> store.

(** [self._log(msg, level=...)] *)
Definition _log (self : LegacyRepository) (msg : string) (lvl : level)
    : LegacyRepository :=
  {| _logged := _logged self ++ [(lvl, msg)];
     _name := _name self; _url := _url self; _matches := _matches self |}.

Definition put_matches (self : LegacyRepository) (now : nat) (key : string)
    (value : list Version) (ttl : nat) : LegacyRepository :=
  {| _matches := store_put now (_matches self) key value ttl;
     _name := _name self; _url := _url self; _logged := _logged self |}.

(** [LegacyRepository._get(endpoint)]; [session_get] is what
    [self.session.get] answers at the time of the call. *)
Definition _get (self : LegacyRepository) (session_get : string → exn + Response)
    (endpoint : string) : (exn + option Page.Page) * LegacyRepository :=
  let url := _url self +:+ endpoint in
  match session_get url with
  | inl (HTTPError status) => (inl (RepositoryError (HTTPError status)), self)
  | inl e => (inl e, self)
  | inr response =>
      if bool_decide (status_code response ∈ [401%Z; 403%Z]) then
        (inr None, _log self ("Authorization error accessing " +:+ url) warning)
      else if bool_decide (status_code response = 404%Z) then (inr None, self)
      else if raise_for_status (status_code response) then
        (inl (RepositoryError (HTTPError (status_code response))), self)
      else
        let self :=
          if bool_decide (response_url response ≠ url) then
            _log self ("Response URL " +:+ response_url response
                       +:+ " differs from request URL " +:+ url) debug
          else self in
        (inr (Some (Page.init (response_url response) (response_content response)
                              (response_headers response))), self)
  end.

(** [s.replace(".", "-")] *)
Fixpoint replace_dots (s : string) : string :=
  match s with
  | EmptyString => EmptyString
  | String c rest =>
      String (if bool_decide (c = "."%char) then "-"%char else c) (replace_dots rest)
  end.

(** Lines 246-251 of [find_packages]: [None] becomes ["*"], text is
    parsed. *)
Definition normalize_constraint (raw : raw_constraint) : exn + VersionConstraint :=
  match raw with
  | ConstraintNone => parse_constraint "*"
  | ConstraintText text => parse_constraint text
  | ConstraintObject c => inr c
  end.

Definition bound_is_unstable (bound : option Version) : bool :=
  match bound with
  | Some v => is_unstable v
  | None => false
  end.

(** Lines 253-261: the prerelease allowance of a call. *)
Definition allow_prereleases (dependency : Dependency)
    (constraint : VersionConstraint) : bool :=
  let allow := dep_allows_prereleases dependency in
  match as_version_range constraint with
  | Some (min, max) =>
      if bound_is_unstable max || bound_is_unstable min then true else allow
  | None => allow
  end.

(** Lines 263-265: the cache key. *)
Definition cache_key (dependency : Dependency) (constraint : VersionConstraint)
    : string :=
  if negb (is_any constraint) then
    dep_name dependency +:+ ":" +:+ constraint_str constraint
  else dep_name dependency.

(** Lines 276-285: the loop over [page.versions], giving [versions] and
    [ignored_pre_release_versions]. *)
Definition select_versions (constraint : VersionConstraint) (allow : bool)
    (page_versions : list Version) : list Version * list Version :=
  foldl (λ '(versions, ignored) version,
           if is_unstable version && negb allow then
             if is_any constraint then (versions, ignored ++ [version])
             else (versions, ignored)
           else if allows constraint version then (versions ++ [version], ignored)
           else (versions, ignored))
        ([], []) page_versions.

Definition make_package (self : LegacyRepository) (dependency : Dependency)
    (version : Version) : Package :=
  {| pkg_name := dep_name dependency;
     pkg_version := version;
     pkg_source_type := Some "legacy";
     pkg_source_reference := Some (_name self);
     pkg_source_url := Some (_url self) |}.

(** Lines 289-310: the loop over [(versions, ignored_pre_release_versions)]. *)
Fixpoint build_packages (self : LegacyRepository) (dependency : Dependency)
    (constraint : VersionConstraint) (groups : list (list Version))
    (packages : list Package) : list Package * LegacyRepository :=
  match groups with
  | [] => (packages, self)
  | package_versions :: rest =>
      let packages := packages ++ (make_package self dependency <$> package_versions) in
      let self :=
        _log self (pretty (length packages) +:+ " packages found for "
                   +:+ dep_name dependency +:+ " " +:+ constraint_str constraint)
             debug in
      if (0 <? length packages) || negb (is_any constraint) then (packages, self)
      else build_packages self dependency constraint rest packages
  end.

(** [LegacyRepository.find_packages(dependency)], called at time [now]
    against the network [session_get]. *)
Definition find_packages (self : LegacyRepository)
    (session_get : string → exn + Response) (now : nat) (dependency : Dependency)
    : (exn + list Package) * LegacyRepository :=
  match normalize_constraint (dep_constraint dependency) with
  | inl e => (inl e, self)
  | inr constraint =>
      let allow := allow_prereleases dependency constraint in
      let key := cache_key dependency constraint in
      if store_has now (_matches self) key then
        match store_get now (_matches self) key with
        | Some versions =>
            let '(packages, self) :=
              build_packages self dependency constraint [versions; []] [] in
            (inr packages, self)
        | None => (inl (OtherError "TypeError"), self)
        end
      else
        match _get self session_get ("/" +:+ replace_dots (dep_name dependency) +:+ "/") with
        | (inl e, self) => (inl e, self)
        | (inr None, self) => (inr [], self)
        | (inr (Some page), self) =>
            let '(versions, ignored_pre_release_versions) :=
              select_versions constraint allow (Page.versions page) in
            let self := put_matches self now key versions 5 in
            let '(packages, self) :=
              build_packages self dependency constraint
                [versions; ignored_pre_release_versions] [] in
            (inr packages, self)
        end
  end.

(** [LegacyRepository.find_links_for_package(package)] *)
Definition find_links_for_package (self : LegacyRepository)
    (session_get : string → exn + Response) (package : Package)
    : (exn + list Link) * LegacyRepository :=
  match _get self session_get ("/" +:+ replace_dots (pkg_name package) +:+ "/") with
  | (inl e, self) => (inl e, self)
  | (inr None, self) => (inr [], self)
  | (inr (Some page), self) =>
      (inr (Page.links_for_version page (pkg_version package)), self)
  end.

End LegacyRepository.
End LegacyRepository.

(** ** Sequences of pool mutations *)

Inductive mutation `{Semver} : Type :=
| Add (repository : Pool.Repository) (default secondary : bool)
| Remove (name : option string).

Definition apply_mutation `{Semver} (self : Pool.Pool) (m : mutation)
    : exn + Pool.Pool :=
  match m with
  | Add r default secondary => Pool.add_repository self r default secondary
  | Remove name => Pool.remove_repository self name
  end.

Fixpoint apply_mutations `{Semver} (self : Pool.Pool) (ms : list mutation)
    : exn + Pool.Pool :=
  match ms with
  | [] => inr self
  | m :: rest =>
      match apply_mutation self m with
      | inl e => inl e
      | inr self' => apply_mutations self' rest
      end
  end.

(** ** A small instance of the external libraries

    Versions are their own text, unstable when they hold anything but
    digits and dots; a page's content is a blank-separated list of hrefs.
    The instance is what the concrete runs below evaluate against. *)
Module Sample.

Inductive constraint : Type :=
| Any
| Exactly (v : string)
| Between (min max : option string).

Definition unstable (v : string) : bool :=
  negb (forallb (λ c, Page.is_digit c || bool_decide (c = "."%char))
                (list_ascii_of_string v)).

Definition text_le (a b : string) : bool :=
  match String.compare a b with Gt => false | _ => true end.

Definition constraint_allows (c : constraint) (v : string) : bool :=
  match c with
  | Any => true
  | Exactly w => bool_decide (v = w)
  | Between min max =>
      match min with Some m => text_le m v | None => true end
      && match max with Some m => text_le v m | None => true end
  end.

Definition constraint_text (c : constraint) : string :=
  match c with
  | Any => "*"
  | Exactly v => "==" +:+ v
  | Between min max => ">=" +:+ default "" min +:+ ",<=" +:+ default "" max
  end.

#[export] Instance semver : Semver := {|
  Version := string;
  is_unstable := unstable;
  Version_parse := λ text, if bool_decide (text = "") then None else Some text;
  VersionConstraint := constraint;
  parse_constraint := λ text,
    if bool_decide (text = "*") then inr Any
    else if bool_decide (text = "") then inl (ValueError "Could not parse version constraint")
    else inr (Exactly text);
  as_version_range := λ c,
    match c with
    | Any => Some (None, None)
    | Exactly v => Some (Some v, Some v)
    | Between min max => Some (min, max)
    end;
  is_any := λ c, match c with Any => true | _ => false end;
  allows := constraint_allows;
  constraint_str := constraint_text
|}.

Definition version (text : string) : Version := text.

Fixpoint split_on (sep : ascii) (s : string) (word : string) : list string :=
  match s with
  | EmptyString => if bool_decide (word = "") then [] else [word]
  | String c rest =>
      if bool_decide (c = sep) then
        (if bool_decide (word = "") then [] else [word]) ++ split_on sep rest ""
      else split_on sep rest (word +:+ String c EmptyString)
  end.

Definition basename (url : string) : string :=
  List.last (split_on "/"%char url "") "".

Definition extension (url : string) : string :=
  default "" (List.find (endswith url) Page.SUPPORTED_FORMATS).

Definition stem (url : string) : string :=
  let name := basename url in
  substring 0 (String.length name - String.length (extension url)) name.

Definition wheel_ver (filename : string) : option string :=
  if endswith filename ".whl" then
    match split_on "-"%char filename "" with
    | _ :: ver :: _ :: _ :: _ :: _ => Some ver
    | _ => None
    end
  else None.

#[export] Instance index_lib : IndexLib := {|
  content_type_charset := λ _, None;
  parsed_anchors := λ content _,
    (λ href, {| anchor_href := Some href; anchor_requires_python := None |})
      <$> split_on " "%char content "";
  urljoin := λ base href, base +:+ href;
  unescape := λ s, s;
  link_filename := basename;
  link_ext := extension;
  link_stem := stem;
  wheel_file_ver := wheel_ver
|}.

(** A client that knows no package at all, and one that answers every
    request with the same package. *)
Definition silent (name : string) : Pool.Repository :=
  {| Pool.repo_name := Some name;
     Pool.repo_package := λ pname _ _ _, inl (PackageNotFound pname);
     Pool.repo_find_packages := λ _, inr [] |}.

Definition release (name : string) (version : string) : Package :=
  {| pkg_name := name; pkg_version := version; pkg_source_type := None;
     pkg_source_reference := None; pkg_source_url := None |}.

Definition serving (name : string) (found : list string) : Pool.Repository :=
  {| Pool.repo_name := Some name;
     Pool.repo_package := λ pname pversion _ _, inr (Some (release pname pversion));
     Pool.repo_find_packages := λ d, inr (release (dep_name d) <$> found) |}.

(** A server that answers every URL with the same status and body. *)
Definition server (status : Z) (body : string) (url : string) : exn + Response :=
  inr {| status_code := status; response_url := url;
         response_content := body; response_headers := [] |}.

Definition wants (name : string) (c : raw_constraint) : Dependency :=
  {| dep_name := name; dep_constraint := c; dep_source_name := None;
     dep_allows_prereleases := false |}.

Definition legacy (name url : string) : LegacyRepository.LegacyRepository :=
  {| LegacyRepository._name := name;
     LegacyRepository._url := LegacyRepository.rstrip_slash url;
     LegacyRepository._matches := ∅;
     LegacyRepository._logged := [] |}.

(** The pool that a list of mutations builds from the empty one (the
    empty pool itself should a mutation raise). *)
Definition pool_of (ms : list mutation) : Pool.Pool :=
  match apply_mutations (Pool.empty_pool None) ms with
  | inr self => self
  | inl _ => Pool.empty_pool None
  end.

Definition names (self : Pool.Pool) : list (option string) :=
  Pool.repo_name <$> Pool._repositories self.

Definition three_primaries_one_secondary_one_primary : list mutation :=
  [Add (silent "primary1") false false; Add (silent "primary2") false false;
   Add (silent "primary3") false false; Add (silent "secondary1") false true;
   Add (silent "primary4") false false].

(** A pool that ignores repository names, over two clients. *)
Definition bypassing_pool : Pool.Pool :=
  match Pool.init [serving "first" ["1.0"]; silent "second"] true None with
  | inr self => self
  | inl _ => Pool.empty_pool None
  end.

End Sample.

(** The pool's central invariant: every entry of the lookup table holds
    the position, in the repository list, of a client of that name. *)
Definition lookup_consistent `{Semver} (self : Pool.Pool) : Prop :=
  ∀ name idx, Pool._lookup self !! name = Some idx →
    ∃ r, Pool._repositories self !! idx = Some r ∧ Pool.repository_name r = name.

(** The position at which a value first occurs in a list. *)
Definition first_position `{EqDecision A} (v : A) (l : list A) : option nat :=
  fst <$> list_find (λ x, x = v) l.

Definition is_addition `{Semver} (m : mutation) : bool :=
  match m with Add _ _ _ => true | Remove _ => false end.

(** Two states of one legacy client: same name, same base URL. *)
Definition same_identity `{Semver}
    (self self' : LegacyRepository.LegacyRepository) : Prop :=
  LegacyRepository._name self' = LegacyRepository._name self
  ∧ LegacyRepository._url self' = LegacyRepository._url self.

(** The repositories that a run of mutations adds to each tier, in call
    order ([default] takes precedence over [secondary], as in the code). *)
Definition defaults `{Semver} (ms : list mutation) : list Pool.Repository :=
  omap (λ m, match m with Add r true _ => Some r | _ => None end) ms.

Definition primaries `{Semver} (ms : list mutation) : list Pool.Repository :=
  omap (λ m, match m with Add r false false => Some r | _ => None end) ms.

Definition secondaries `{Semver} (ms : list mutation) : list Pool.Repository :=
  omap (λ m, match m with Add r false true => Some r | _ => None end) ms.

(** A pool laid out in tiers: the default (if any), then the primaries,
    then the secondaries, the boundary marking where the secondaries
    start once there is one. *)
Definition tiered `{Semver} (self : Pool.Pool)
    (ds ps ss : list Pool.Repository) : Prop :=
  Pool._repositories self = ds ++ ps ++ ss
  ∧ Pool._secondary_start_idx self
    = match ss with [] => None | _ => Some (length (ds ++ ps)) end
  ∧ (Pool._default self = false → ds = []).

(** The secondary boundary, when set, lies within the list. *)
Definition boundary_in_range `{Semver} (self : Pool.Pool) : Prop :=
  ∀ b, Pool._secondary_start_idx self = Some b → b ≤ length (Pool._repositories self).


(** ** pool.py: search *)

(** [Pool.search(query)]. What the pool needs from a client here, its
    [search] method and whether it is a [LegacyRepository], is given
    beside the client records. *)
Module PoolSearch.
Section PoolSearch.
Context `{Semver}.
Variable is_LegacyRepository : Pool.Repository → bool.
Variable repo_search : Pool.Repository → string → exn + list Package.

(** The loop over [self._repositories]: the clients asked and the
    results gathered, or the exception a client raised. *)
Fixpoint scan_search (repos : list Pool.Repository) (query : string)
    (results : list Package) : list Pool.Repository * (exn + list Package) :=
  match repos with
  | [] => ([], inr results)
  | repository :: rest =>
      if is_LegacyRepository repository then scan_search rest query results
      else
        match repo_search repository query with
        | inl e => ([repository], inl e)
        | inr found =>
            let '(asked, r) := scan_search rest query (results ++ found) in
            (repository :: asked, r)
        end
  end.

Fixpoint search (self : Pool.Pool) (query : string) {struct self}
    : list Pool.Repository * (exn + list Package) :=
  match self with
  | Pool.mkPool _ repositories _ _ _ parent _ _ =>
      match scan_search repositories query [] with
      | (asked, inl e) => (asked, inl e)
      | (asked, inr results) =>
          match parent with
          | Some parent =>
              let '(asked', r) := search parent query in
              (asked ++ asked',
               match r with
               | inl e => inl e
               | inr more => inr (results ++ more)
               end)
          | None => (asked, inr (results ++ []))
          end
      end
  end.

End PoolSearch.
End PoolSearch.

(** ** legacy_repository.py: release information *)

(** What [_get_release_info] reads from a link and from its
    collaborators: poetry-core's [Link] attributes, [canonicalize_name],
    the cache version tag of the base class and the metadata routine
    [_get_info_from_urls]. *)
Class ReleaseLib := {
  (** [link.is_wheel], [link.hash] and [link.hash_name] of a link URL *)
  link_is_wheel : string → bool;
  link_hash : string → option string;
  link_hash_name : string → option string;
  (** [canonicalize_name(name)] *)
  canonicalize_name : string → string;
  (** [str(self.CACHE_VERSION)] *)
  CACHE_VERSION : string;
  (** [self._get_info_from_urls(urls, project)] on the wheel and the
      source-distribution URLs: summary, requires_dist, requires_python *)
  _get_info_from_urls :
    list string → list string → project_arg
    → exn + (string * list string * option string)
}.

(** [PackageInfo(...).asdict()] *)
Record PackageInfo := mkPackageInfo {
  info_name : string;
  info_version : string;
  info_summary : string;
  info_platform : option string;
  info_requires_dist : list string;
  info_requires_python : option string;
  info_files : list (string * option string);
  info_cache_version : string
}.

Module ReleaseInfo.
Section ReleaseInfo.
Context `{Semver} `{IndexLib} `{ReleaseLib}.

Definition sdist_suffixes : list string :=
  [".tar.gz"; ".zip"; ".bz2"; ".xz"; ".Z"; ".tar"].

(** [f"{link.hash_name}:{link.hash}" if link.hash else None] *)
Definition file_hash (link : Link) : option string :=
  match link_hash (link_url link) with
  | Some digest =>
      if bool_decide (digest = "") then None
      else Some (default "None" (link_hash_name (link_url link)) +:+ ":" +:+ digest)
  | None => None
  end.

(** The loop over the links: the wheel URLs, the source-distribution
    URLs and the file records. *)
Definition sort_links (links : list Link)
    : list string * list string * list (string * option string) :=
  foldl (λ '(wheels, sdists, files) link,
           let '(wheels, sdists) :=
             if link_is_wheel (link_url link) then
               (wheels ++ [link_url link], sdists)
             else if existsb (endswith (link_filename (link_url link))) sdist_suffixes
             then (wheels, sdists ++ [link_url link])
             else (wheels, sdists) in
           (wheels, sdists, files ++ [(link_filename (link_url link), file_hash link)]))
        ([], [], []) links.

(** [LegacyRepository._get_release_info(name, version, project)] *)
Definition _get_release_info (self : LegacyRepository.LegacyRepository)
    (session_get : string → exn + Response) (name version : string)
    (project : project_arg)
    : (exn + PackageInfo) * LegacyRepository.LegacyRepository :=
  match
    LegacyRepository._get self session_get
      ("/" +:+ LegacyRepository.replace_dots (canonicalize_name name) +:+ "/")
  with
  | (inl e, self) => (inl e, self)
  | (inr None, self) =>
      (inl (PackageNotFound ("No package named " +:+ quoted name)), self)
  | (inr (Some page), self) =>
      match Version_parse version with
      | None => (inl (ValueError version), self)
      | Some parsed =>
          let links := Page.links_for_version page parsed in
          if bool_decide (links = []) then
            (inl (PackageNotFound
                    ("No valid distribution links found for package: "
                     +:+ quoted name +:+ " version: " +:+ quoted version)), self)
          else
            let '(wheels, sdists, files) := sort_links links in
            match _get_info_from_urls wheels sdists project with
            | inl e => (inl e, self)
            | inr (summary, requires_dist, requires_python) =>
                (inr {| info_name := name;
                        info_version := version;
                        info_summary := summary;
                        info_platform := None;
                        info_requires_dist := requires_dist;
                        info_requires_python := requires_python;
                        info_files := files;
                        info_cache_version := CACHE_VERSION |}, self)
            end
      end
  end.

End ReleaseInfo.
End ReleaseInfo.

(** ** More of the small instance *)
Module SampleIndex.
#[local] Existing Instance Sample.semver.
#[local] Existing Instance Sample.index_lib.

(** A link is a wheel when its name ends in [.whl]; its hash is the URL
    fragment after [#sha256=], when there is one. *)
Definition fragment_hash (url : string) : option string :=
  match Sample.split_on "#"%char url "" with
  | [_; fragment] => Some (substring 7 (String.length fragment - 7) fragment)
  | _ => None
  end.

#[export] Instance release_lib : ReleaseLib := {|
  link_is_wheel := λ url, endswith (Sample.basename url) ".whl";
  link_hash := fragment_hash;
  link_hash_name := λ url,
    match fragment_hash url with Some _ => Some "sha256" | None => None end;
  canonicalize_name := lower;
  CACHE_VERSION := "1.0.0";
  _get_info_from_urls := λ wheels sdists _,
    inr ("a demo package", wheels ++ sdists, Some ">=3.6")
|}.

(** Whether a client stands for a legacy repository: here, by name. *)
Definition legacy_by_name (r : Pool.Repository) : bool :=
  bool_decide (Pool.repo_name r = Some "legacy").

(** A search that answers the query once per client, under its name. *)
Definition search_by_name (r : Pool.Repository) (query : string)
    : exn + list Package :=
  inr [Sample.release query (default "" (Pool.repo_name r))].

(** A pool with a default, a primary and a secondary. *)
Definition three_tiers : list mutation :=
  [Add (Sample.silent "a") false false; Add (Sample.silent "B") true false;
   Add (Sample.silent "z") false true].

End SampleIndex.

(** A client that does not hold the package: it raises
    [PackageNotFound] or returns nothing. *)
Definition passes `{Semver} (repo : Pool.Repository) (name version : string)
    (project : project_arg) (extras : option (list string)) : Prop :=
  (∃ msg, Pool.repo_package repo name version project extras
          = inl (PackageNotFound msg))
  ∨ Pool.repo_package repo name version project extras = inr None.

(** Whether every character of a string passes a test. *)
Fixpoint string_forall (f : ascii → bool) (s : string) : bool :=
  match s with
  | EmptyString => true
  | String c rest => f c && string_forall f rest
  end.

(** The last character of a string. *)
Fixpoint last_ascii (s : string) : option ascii :=
  match s with
  | EmptyString => None
  | String c EmptyString => Some c
  | String _ rest => last_ascii rest
  end.

(** A run of [k] slashes. *)
Fixpoint slashes (k : nat) : string :=
  match k with
  | 0 => EmptyString
  | S k => String "/" (slashes k)
  end.

(** * Properties *)

(** ** Lists and names *)

Lemma lower_ascii_idempotent c : lower_ascii (lower_ascii c) = lower_ascii c.
Proof. destruct c as [[] [] [] [] [] [] [] []]; reflexivity. Qed.

Lemma lower_idempotent s : lower (lower s) = lower s.
Proof.
  induction s as [|c s IH]; simpl; [done|].
  by rewrite lower_ascii_idempotent, IH.
Qed.

Section list_insert_at.
Context {A : Type}.
Implicit Types (l : list A) (x : A) (i j : nat).

Lemma length_list_insert_at i x l : length (list_insert_at i x l) = S (length l).
Proof.
  unfold list_insert_at. rewrite length_app. simpl.
  rewrite length_take, length_drop. lia.
Qed.

Lemma list_insert_at_lookup_lt i j x l :
  j < i → i ≤ length l → list_insert_at i x l !! j = l !! j.
Proof.
  intros Hj Hi. unfold list_insert_at.
  rewrite lookup_app_l by (rewrite length_take; lia).
  by rewrite lookup_take_lt.
Qed.

Lemma list_insert_at_lookup_eq i x l :
  i ≤ length l → list_insert_at i x l !! i = Some x.
Proof.
  intros Hi. unfold list_insert_at.
  rewrite lookup_app_r by (rewrite length_take; lia).
  rewrite length_take. by replace (i - i `min` length l) with 0 by lia.
Qed.

Lemma list_insert_at_lookup_gt i j x l :
  i ≤ j → i ≤ length l → list_insert_at i x l !! (S j) = l !! j.
Proof.
  intros Hj Hi. unfold list_insert_at.
  rewrite lookup_app_r by (rewrite length_take; lia).
  rewrite length_take.
  replace (S j - i `min` length l) with (S (j - i)) by lia. simpl.
  rewrite lookup_drop. f_equal. lia.
Qed.

Lemma list_insert_at_app x l k : list_insert_at (length l) x (l ++ k) = l ++ x :: k.
Proof. unfold list_insert_at. by rewrite take_app_length, drop_app_length. Qed.

End list_insert_at.

(** ** The pool's lookup table *)

Section pool_mutations.
Context `{Semver}.
Implicit Types (self : Pool.Pool) (r : Pool.Repository).

(** A primary added before any secondary goes to the end of the list. *)
Lemma add_primary_without_boundary self r :
  Pool._secondary_start_idx self = None →
  ∃ self', Pool.add_repository self r false false = inr self'
    ∧ Pool._repositories self' = Pool._repositories self ++ [r]
    ∧ Pool._lookup self'
      = <[Pool.repository_name r := length (Pool._repositories self)]> (Pool._lookup self)
    ∧ Pool._secondary_start_idx self' = None.
Proof.
  intros Hb. unfold Pool.add_repository. rewrite Hb. eexists; split; [done|].
  simpl. rewrite length_app. simpl.
  by replace (length (Pool._repositories self) + 1 - 1)
    with (length (Pool._repositories self)) by lia.
Qed.

(** The first secondary sets the boundary to the length of the list. *)
Lemma add_secondary_sets_boundary self r :
  Pool._secondary_start_idx self = None →
  ∃ self', Pool.add_repository self r false true = inr self'
    ∧ Pool._repositories self' = Pool._repositories self ++ [r]
    ∧ Pool._lookup self'
      = <[Pool.repository_name r := length (Pool._repositories self)]> (Pool._lookup self)
    ∧ Pool._secondary_start_idx self' = Some (length (Pool._repositories self)).
Proof.
  intros Hb. unfold Pool.add_repository. rewrite Hb. eexists; split; [done|].
  simpl. rewrite length_app. simpl.
  by replace (length (Pool._repositories self) + 1 - 1)
    with (length (Pool._repositories self)) by lia.
Qed.

(** A primary added once a boundary exists is inserted at the boundary. *)
Lemma add_primary_at_boundary self r b :
  Pool._secondary_start_idx self = Some b →
  ∃ self', Pool.add_repository self r false false = inr self'
    ∧ Pool._repositories self' = list_insert_at b r (Pool._repositories self)
    ∧ Pool._lookup self'
      = <[Pool.repository_name r := b]>
          ((λ idx, if idx <? b then idx else idx + 1) <$> Pool._lookup self)
    ∧ (∀ name, Pool._lookup self' !! name
         = if decide (name = Pool.repository_name r) then Some b
           else (λ idx, if idx <? b then idx else idx + 1) <$> Pool._lookup self !! name)
    ∧ Pool._secondary_start_idx self' = Some (b + 1)
    ∧ Pool.has_primary_repositories self' = true.
Proof.
  intros Hb. unfold Pool.add_repository. rewrite Hb. eexists; split; [done|].
  simpl. repeat split; try done.
  intros name. case_decide as Hn.
  - subst. by rewrite lookup_insert_eq.
  - rewrite lookup_insert_ne by done. by rewrite lookup_fmap.
Qed.

(** Every addition keeps the lookup table consistent with the list. *)
Lemma add_repository_keeps_lookup_consistent self r default secondary self' :
  lookup_consistent self → boundary_in_range self →
  Pool.add_repository self r default secondary = inr self' →
  lookup_consistent self' ∧ boundary_in_range self'.
Proof.
  intros Hl Hb. unfold Pool.add_repository.
  destruct default.
  { destruct (Pool.has_default self); [done|]. intros [= <-]. split.
    - intros name idx. simpl. rewrite lookup_insert. case_decide as Hn.
      + intros [= <-]. by exists r.
      + rewrite lookup_fmap. destruct (Pool._lookup self !! name) as [i|] eqn:Hi;
          [|done]. intros [= <-]. simpl. by apply Hl.
    - intros b. simpl. destruct (Pool._secondary_start_idx self) as [b0|] eqn:Hb0;
        [|done]. intros [= <-]. specialize (Hb _ Hb0). simpl.
      rewrite length_drop. lia. }
  destruct secondary.
  { intros [= <-]. split.
    - intros name idx. simpl. rewrite lookup_insert. case_decide as Hn.
      + intros [= <-]. exists r. split; [|done].
        apply list_lookup_middle. rewrite length_app. simpl. lia.
      + intros Hi. destruct (Hl _ _ Hi) as (r0 & Hr0 & Hname).
        exists r0. split; [|done]. by apply lookup_app_l_Some.
    - intros b. simpl. rewrite length_app. simpl.
      destruct (Pool._secondary_start_idx self) as [b0|] eqn:Hb0.
      + intros [= <-]. specialize (Hb _ Hb0). lia.
      + intros [= <-]. lia. }
  destruct (Pool._secondary_start_idx self) as [b0|] eqn:Hb0.
  - intros [= <-]. specialize (Hb _ Hb0). split.
    + intros name idx. simpl. rewrite lookup_insert. case_decide as Hn.
      * intros [= <-]. exists r. split; [|done]. by apply list_insert_at_lookup_eq.
      * rewrite lookup_fmap. destruct (Pool._lookup self !! name) as [i|] eqn:Hi;
          [|done]. intros [= <-]. destruct (Hl _ _ Hi) as (r0 & Hr0 & Hname).
        exists r0. split; [|done]. destruct (Nat.ltb_spec i b0).
        -- by rewrite list_insert_at_lookup_lt.
        -- rewrite Nat.add_1_r. by rewrite list_insert_at_lookup_gt.
    + intros b. simpl. intros [= <-]. rewrite length_list_insert_at. lia.
  - intros [= <-]. split.
    + intros name idx. simpl. rewrite lookup_insert. case_decide as Hn.
      * intros [= <-]. exists r. split; [|done].
        apply list_lookup_middle. rewrite length_app. simpl. lia.
      * intros Hi. destruct (Hl _ _ Hi) as (r0 & Hr0 & Hname).
        exists r0. split; [|done]. by apply lookup_app_l_Some.
    + intros b. simpl. done.
Qed.

Lemma empty_pool_lookup_consistent parent :
  lookup_consistent (Pool.empty_pool parent) ∧ boundary_in_range (Pool.empty_pool parent).
Proof. split; intros ? ?; simpl; [by rewrite lookup_empty | done]. Qed.

(** Any run of additions alone keeps the invariant. *)
Lemma additions_keep_lookup_consistent (ms : list mutation) self self' :
  forallb is_addition ms = true →
  lookup_consistent self → boundary_in_range self →
  apply_mutations self ms = inr self' →
  lookup_consistent self' ∧ boundary_in_range self'.
Proof.
  revert self. induction ms as [|m ms IH]; intros self Hadd Hl Hb; simpl.
  - by intros [= <-].
  - simpl in Hadd. apply andb_prop in Hadd as [Hm Hms].
    destruct m as [r d s|]; [|done]. simpl.
    destruct (Pool.add_repository self r d s) as [e|self1] eqn:Hadd1; [done|].
    destruct (add_repository_keeps_lookup_consistent _ _ _ _ _ Hl Hb Hadd1).
    by apply IH.
Qed.

(** Additions keep the tiers in order: a default goes to the front, a
    primary to the end of the primaries, a secondary to the end. *)
Lemma add_repository_keeps_tiers self r default secondary self' ds ps ss :
  tiered self ds ps ss →
  Pool.add_repository self r default secondary = inr self' →
  tiered self'
    (ds ++ defaults [Add r default secondary])
    (ps ++ primaries [Add r default secondary])
    (ss ++ secondaries [Add r default secondary]).
Proof.
  intros (Hrepos & Hbound & Hdefault). unfold Pool.add_repository.
  destruct default.
  { destruct (Pool.has_default self) eqn:Hd; [done|]. intros [= <-].
    rewrite (Hdefault Hd) in *. unfold tiered. simpl. rewrite !app_nil_r.
    split; [by rewrite Hrepos|]. split; [|done].
    rewrite Hbound. by destruct ss. }
  destruct secondary.
  { intros [= <-]. unfold tiered. simpl. rewrite !app_nil_r.
    split; [by rewrite Hrepos, <- !app_assoc|]. split; [|done].
    rewrite Hbound, Hrepos. destruct ss; simpl; [|done].
    by rewrite app_nil_r. }
  rewrite Hbound. destruct ss as [|s ss].
  - intros [= <-]. unfold tiered. simpl. rewrite !app_nil_r.
    split; [by rewrite Hrepos, app_nil_r, <- !app_assoc | done].
  - intros [= <-]. unfold tiered. simpl. rewrite !app_nil_r.
    split; [|split; [|done]].
    + by rewrite Hrepos, app_assoc, list_insert_at_app, <- !app_assoc.
    + f_equal. rewrite !length_app. simpl. lia.
Qed.

Lemma additions_keep_tiers (ms : list mutation) self self' ds ps ss :
  forallb is_addition ms = true →
  tiered self ds ps ss →
  apply_mutations self ms = inr self' →
  tiered self' (ds ++ defaults ms) (ps ++ primaries ms) (ss ++ secondaries ms).
Proof.
  revert self ds ps ss. induction ms as [|m ms IH]; intros self ds ps ss Hadd Ht.
  - simpl. intros [= <-]. by rewrite !app_nil_r.
  - simpl in Hadd. apply andb_prop in Hadd as [Hm Hms].
    destruct m as [r d s|]; [|done]. cbn [apply_mutations apply_mutation].
    destruct (Pool.add_repository self r d s) as [e|self1] eqn:Hadd1; [done|].
    intros Hrun.
    pose proof (IH _ _ _ _ Hms (add_repository_keeps_tiers _ _ _ _ _ _ _ _ Ht Hadd1)
                  Hrun) as Ht'.
    unfold defaults, primaries, secondaries in *.
    destruct d, s; simpl in *; by rewrite <- ?app_assoc, ?app_nil_r in Ht'.
Qed.

(** A pool built by additions alone holds the default, the primaries and
    the secondaries in that order, each tier in call order; the clients
    before its secondary boundary are the default and the primaries. *)
Lemma additions_build_tiers (ms : list mutation) parent self :
  forallb is_addition ms = true →
  apply_mutations (Pool.empty_pool parent) ms = inr self →
  Pool._repositories self = defaults ms ++ primaries ms ++ secondaries ms
  ∧ Pool.slice_to (Pool._secondary_start_idx self) (Pool._repositories self)
    = defaults ms ++ primaries ms.
Proof.
  intros Hadd Hrun.
  destruct (additions_keep_tiers ms (Pool.empty_pool parent) self [] [] [] Hadd)
    as (Hrepos & Hbound & _); [done | done |].
  simpl in Hrepos, Hbound. split; [done|]. rewrite Hbound, Hrepos.
  destruct (secondaries ms) as [|s ss]; simpl.
  - by rewrite app_nil_r.
  - by rewrite app_assoc, take_app_length.
Qed.

End pool_mutations.

Section pool_claims.
Context `{Semver}.
Implicit Types (self : Pool.Pool) (r : Pool.Repository).

(** C8: [add_repository] with [default=true] raises the configuration
    error [ValueError] when the pool already has a default repository.
    When it succeeds, the new repository is at position 0 of the list,
    the lookup index of every other registered name and the secondary
    boundary (if set) are one higher than before, and the new default's
    name resolves to index 0, that is, to the new repository. *)
Theorem add_default_repository self r secondary :
  (Pool.has_default self = true →
   Pool.add_repository self r true secondary
   = inl (ValueError "Only one repository can be the default"))
  ∧ (Pool.has_default self = false →
     ∃ self', Pool.add_repository self r true secondary = inr self'
       ∧ Pool._repositories self' = r :: Pool._repositories self
       ∧ Pool._lookup self' = <[Pool.repository_name r := 0]> (S <$> Pool._lookup self)
       ∧ (∀ name, Pool._lookup self' !! name
            = if decide (name = Pool.repository_name r) then Some 0
              else S <$> Pool._lookup self !! name)
       ∧ (∀ name idx, name ≠ Pool.repository_name r →
            Pool._lookup self !! name = Some idx →
            Pool._lookup self' !! name = Some (S idx))
       ∧ Pool._secondary_start_idx self' = S <$> Pool._secondary_start_idx self
       ∧ Pool._lookup self' !! Pool.repository_name r = Some 0
       ∧ Pool.repository self' (Pool.repo_name r) = inr r
       ∧ Pool.has_default self' = true).
Proof.
  unfold Pool.add_repository. split; intros Hd; rewrite Hd; [done|].
  eexists; split; [done|]. simpl.
  assert (Hpoint : ∀ name,
    <[Pool.repository_name r := 0]> (S <$> Pool._lookup self) !! name
    = if decide (name = Pool.repository_name r) then Some 0
      else S <$> Pool._lookup self !! name).
  { intros name. case_decide as Hn.
    - subst. by rewrite lookup_insert_eq.
    - rewrite lookup_insert_ne by done. by rewrite lookup_fmap. }
  repeat split; try done.
  - intros name idx Hn Hi. rewrite Hpoint. case_decide; [done|]. by rewrite Hi.
  - by rewrite lookup_insert_eq.
  - unfold Pool.repository, Pool.repository_name. simpl.
    by rewrite lookup_insert_eq.
Qed.

(** C7 (amended): a primary repository added while a secondary boundary
    exists is inserted at the boundary position; the lookup index of
    every other name at or past the boundary is one higher than before,
    the new repository's name is recorded at the boundary, and the
    boundary advances by one. Hence, on a pool with no secondary yet,
    adding three primaries, then one secondary, then one more primary
    leaves the five of them in the order primary1, primary2, primary3,
    primary4 (new), secondary1 after whatever the pool held. *)
Theorem primary_lands_before_secondary_boundary :
  (∀ self r b,
     Pool._secondary_start_idx self = Some b →
     ∃ self', Pool.add_repository self r false false = inr self'
       ∧ Pool._repositories self' = list_insert_at b r (Pool._repositories self)
       ∧ (b ≤ length (Pool._repositories self) →
          Pool._repositories self' !! b = Some r
          ∧ take b (Pool._repositories self') = take b (Pool._repositories self)
          ∧ drop (S b) (Pool._repositories self') = drop b (Pool._repositories self))
       ∧ Pool._lookup self'
         = <[Pool.repository_name r := b]>
             ((λ idx, if idx <? b then idx else idx + 1) <$> Pool._lookup self)
       ∧ (∀ name, Pool._lookup self' !! name
            = if decide (name = Pool.repository_name r) then Some b
              else (λ idx, if idx <? b then idx else idx + 1)
                     <$> Pool._lookup self !! name)
       ∧ Pool._secondary_start_idx self' = Some (b + 1))
  ∧ (∀ self p1 p2 p3 s1 p4,
       Pool._secondary_start_idx self = None →
       ∃ self',
         apply_mutations self
           [Add p1 false false; Add p2 false false; Add p3 false false;
            Add s1 false true; Add p4 false false] = inr self'
         ∧ Pool._repositories self' = Pool._repositories self ++ [p1; p2; p3; p4; s1]
         ∧ Pool._secondary_start_idx self'
           = Some (length (Pool._repositories self) + 4)).
Proof.
  split.
  - intros self r b Hb.
    destruct (add_primary_at_boundary self r b Hb)
      as (self' & Hadd & Hrepos & Hmap & Hlookup & Hbound & _).
    exists self'. repeat split; try done.
    + rewrite Hrepos. by apply list_insert_at_lookup_eq.
    + rewrite Hrepos. unfold list_insert_at.
      rewrite take_app_le by (rewrite length_take; lia).
      rewrite take_take. f_equal. lia.
    + rewrite Hrepos. unfold list_insert_at.
      rewrite drop_app_ge by (rewrite length_take; lia).
      rewrite length_take.
      by replace (S b - b `min` length (Pool._repositories self)) with 1 by lia.
  - intros self p1 p2 p3 s1 p4 Hnone. cbn [apply_mutations apply_mutation].
    destruct (add_primary_without_boundary self p1 Hnone)
      as (q1 & -> & Hr1 & _ & Hb1).
    destruct (add_primary_without_boundary q1 p2 Hb1)
      as (q2 & -> & Hr2 & _ & Hb2).
    destruct (add_primary_without_boundary q2 p3 Hb2)
      as (q3 & -> & Hr3 & _ & Hb3).
    destruct (add_secondary_sets_boundary q3 s1 Hb3)
      as (q4 & -> & Hr4 & _ & Hb4).
    destruct (add_primary_at_boundary q4 p4 _ Hb4)
      as (q5 & -> & Hr5 & _ & _ & Hb5 & _).
    exists q5. split; [done|].
    rewrite Hr5, Hb5, Hr4. split.
    + rewrite list_insert_at_app, Hr3, Hr2, Hr1. by rewrite <- !app_assoc.
    + f_equal. rewrite Hr3, Hr2, Hr1, !length_app. simpl. lia.
Qed.

End pool_claims.

(** ** The pool's queries *)

Section pool_queries.
Context `{Semver}.
Implicit Types (self : Pool.Pool) (repo : Pool.Repository).

Lemma scan_find_packages_miss (repos : list Pool.Repository) dependency :
  (∀ r, r ∈ repos → Pool.repo_find_packages r dependency = inr []) →
  Pool.scan_find_packages repos dependency = (repos, inr []).
Proof.
  induction repos as [|r repos IH]; intros Hall; simpl; [done|].
  rewrite (Hall r) by apply list_elem_of_here. simpl.
  rewrite IH; [done|]. intros r' Hr'. apply Hall. by apply list_elem_of_further.
Qed.

Lemma scan_find_packages_hit (before after : list Pool.Repository) repo dependency found :
  (∀ r, r ∈ before → Pool.repo_find_packages r dependency = inr []) →
  Pool.repo_find_packages repo dependency = inr found →
  found ≠ [] →
  Pool.scan_find_packages (before ++ repo :: after) dependency
  = (before ++ [repo], inr found).
Proof.
  intros Hall Hrepo Hfound. induction before as [|r before IH]; simpl.
  - rewrite Hrepo. by destruct found.
  - rewrite (Hall r) by apply list_elem_of_here. simpl.
    rewrite IH; [done|]. intros r' Hr'. apply Hall. by apply list_elem_of_further.
Qed.

Lemma scan_package_miss (repos : list Pool.Repository) name version project extras :
  (∀ r, r ∈ repos → passes r name version project extras) →
  Pool.scan_package repos name version project extras = (repos, inr None).
Proof.
  induction repos as [|r repos IH]; intros Hall; simpl; [done|].
  rewrite IH by (intros r' Hr'; apply Hall; by apply list_elem_of_further).
  by destruct (Hall r (list_elem_of_here _ _)) as [[msg ->]| ->].
Qed.

Lemma scan_package_hit (before after : list Pool.Repository) repo
    name version project extras package :
  (∀ r, r ∈ before → passes r name version project extras) →
  Pool.repo_package repo name version project extras = inr (Some package) →
  Pool.scan_package (before ++ repo :: after) name version project extras
  = (before ++ [repo], inr (Some package)).
Proof.
  intros Hall Hrepo. induction before as [|r before IH]; simpl.
  - by rewrite Hrepo.
  - rewrite IH by (intros r' Hr'; apply Hall; by apply list_elem_of_further).
    by destruct (Hall r (list_elem_of_here _ _)) as [[msg ->]| ->].
Qed.

Lemma scan_package_raise (before after : list Pool.Repository) repo
    name version project extras e :
  (∀ r, r ∈ before → passes r name version project extras) →
  Pool.repo_package repo name version project extras = inl e →
  (∀ msg, e ≠ PackageNotFound msg) →
  Pool.scan_package (before ++ repo :: after) name version project extras
  = (before ++ [repo], inl e).
Proof.
  intros Hall Hrepo He. induction before as [|r before IH]; simpl.
  - rewrite Hrepo. destruct e; try done. by destruct (He msg).
  - rewrite IH by (intros r' Hr'; apply Hall; by apply list_elem_of_further).
    by destruct (Hall r (list_elem_of_here _ _)) as [[msg ->]| ->].
Qed.

(** With name matching bypassed and no parent, a hint changes nothing:
    the clients are scanned in list order as if none was given. *)
Lemma package_ignores_hint_when_bypassed self name version project extras hint :
  Pool._ignore_repository_names self = true →
  Pool._parent self = None →
  Pool.package self name version project extras (Some hint)
  = Pool.package self name version project extras None.
Proof.
  destruct self as [lookup repos d hp b parent ignore pkgs]. simpl.
  intros -> ->. by rewrite !andb_false_r.
Qed.

(** C2 (amended): when a repository hint is given, name matching is not
    bypassed and the pool knows the hint, [Pool.package] asks the one
    client that the lookup table resolves the hint to; on a pool whose
    table matches its list that is a client registered under the hinted
    name. The client's [PackageNotFound] is not propagated: the call
    falls through, to the parent pool when there is one (with the same
    hint) and to the pool's own [PackageNotFound] otherwise; any other
    outcome of the client is the outcome of the call. When name matching
    is bypassed the hint selects no client of the pool: the clients are
    tried in list order, the first package found is returned (and a
    client's other error raised), whatever the hint; when no client has
    the package the call falls through in the same way, the hint going
    to the parent. *)
Theorem package_asks_hinted_repository self name version project extras hint :
  is_ManagedProject project = true →
  let fall_through (asked : list Pool.Repository) :=
    match Pool._parent self with
    | Some parent =>
        (asked ++ fst (Pool.package parent name version project extras
                         (Some (lower hint))),
         match snd (Pool.package parent name version project extras
                      (Some (lower hint))) with
         | inl e => inl e
         | inr (found, parent') => inr (found, Pool.with_parent self parent')
         end)
    | None =>
        (asked,
         inl (PackageNotFound
                ("Package " +:+ name +:+ " (" +:+ version +:+ ") not found.")))
    end in
  (Pool._ignore_repository_names self = false →
   Pool.has_repository self (Some hint) = true →
   (lookup_consistent self →
    ∃ repo, Pool.repository self (Some hint) = inr repo
            ∧ Pool.repository_name repo = Some (lower hint))
   ∧ Pool.package self name version project extras (Some hint)
     = match Pool.repository self (Some hint) with
       | inl e => ([], inl e)
       | inr repo =>
           match Pool.repo_package repo name version project extras with
           | inl (PackageNotFound _) => fall_through [repo]
           | inl e => ([repo], inl e)
           | inr found => ([repo], inr (found, self))
           end
       end)
  ∧ (Pool._ignore_repository_names self = true →
     (∀ before repo after package,
        Pool._repositories self = before ++ repo :: after →
        (∀ r, r ∈ before → passes r name version project extras) →
        Pool.repo_package repo name version project extras = inr (Some package) →
        Pool.package self name version project extras (Some hint)
        = (before ++ [repo], inr (Some package, Pool.record_package self package)))
     ∧ (∀ before repo after e,
          Pool._repositories self = before ++ repo :: after →
          (∀ r, r ∈ before → passes r name version project extras) →
          Pool.repo_package repo name version project extras = inl e →
          (∀ msg, e ≠ PackageNotFound msg) →
          Pool.package self name version project extras (Some hint)
          = (before ++ [repo], inl e))
     ∧ ((∀ r, r ∈ Pool._repositories self → passes r name version project extras) →
        Pool.package self name version project extras (Some hint)
        = fall_through (Pool._repositories self))
     ∧ (∀ other,
          fst (Pool.scan_package (Pool._repositories self) name version project extras)
          `prefix_of` fst (Pool.package self name version project extras other))).
Proof.
  destruct self as [lookup repos d hp b parent ignore pkgs].
  intros Hproject fall_through. split.
  - intros Hignore Hhas. simpl in Hignore. subst ignore.
    unfold Pool.has_repository in Hhas. simpl in Hhas.
    apply bool_decide_eq_true in Hhas as [idx Hidx]. split.
    + intros Hl. destruct (Hl _ _ Hidx) as (repo & Hrepo & Hname).
      exists repo. unfold Pool.repository. simpl in *. by rewrite Hidx, Hrepo.
    + assert (Hagain :
        Pool.repository (Pool.mkPool lookup repos d hp b parent false pkgs)
          (Some (lower hint))
        = Pool.repository (Pool.mkPool lookup repos d hp b parent false pkgs)
            (Some hint)).
      { unfold Pool.repository. simpl. by rewrite lower_idempotent. }
      cbn [Pool.package]. rewrite Hproject.
      cbn [negb fmap option_fmap option_map is_not_None andb].
      rewrite bool_decide_eq_false_2 by (by rewrite Hidx).
      cbn [andb]. rewrite Hagain.
      destruct (Pool.repository _ (Some hint)) as [e|repo]; [done|].
      destruct (Pool.repo_package repo name version project extras) as [[]|];
        try done.
      subst fall_through. cbn [Pool._parent]. destruct parent as [parent|]; [|done].
      by destruct (Pool.package parent _ _ _ _ _) as [asked [e|[found parent']]].
  - intros Hignore. simpl in Hignore. subst ignore.
    assert (Hcall : ∀ other,
      Pool.package (Pool.mkPool lookup repos d hp b parent true pkgs)
        name version project extras other
      = match Pool.scan_package repos name version project extras with
        | (asked, inl e) => (asked, inl e)
        | (asked, inr (Some p)) =>
            (asked,
             inr (Some p,
                  Pool.record_package (Pool.mkPool lookup repos d hp b parent true pkgs) p))
        | (asked, inr None) =>
            match parent with
            | Some up =>
                (asked ++ fst (Pool.package up name version project extras
                                 (lower <$> other)),
                 match snd (Pool.package up name version project extras
                              (lower <$> other)) with
                 | inl e => inl e
                 | inr (found, parent') =>
                     inr (found,
                          Pool.with_parent
                            (Pool.mkPool lookup repos d hp b parent true pkgs) parent')
                 end)
            | None =>
                (asked,
                 inl (PackageNotFound
                        ("Package " +:+ name +:+ " (" +:+ version +:+ ") not found.")))
            end
        end).
    { intros other. cbn [Pool.package]. rewrite Hproject. cbn [negb].
      rewrite !andb_false_r.
      destruct (Pool.scan_package repos _ _ _ _) as [asked [e|[p|]]]; try done.
      destruct parent as [parent|]; [|done].
      by destruct (Pool.package parent _ _ _ _ _) as [asked' [e|[found parent']]]. }
    cbn [Pool._repositories]. repeat split.
    + intros before repo after package -> Hbefore Hrepo.
      by rewrite Hcall, (scan_package_hit _ _ _ _ _ _ _ _ Hbefore Hrepo).
    + intros before repo after e -> Hbefore Hrepo He.
      by rewrite Hcall, (scan_package_raise _ _ _ _ _ _ _ _ Hbefore Hrepo He).
    + intros Hall. by rewrite Hcall, (scan_package_miss _ _ _ _ _ Hall).
    + intros other. rewrite Hcall.
      destruct (Pool.scan_package repos _ _ _ _) as [asked [e|[p|]]]; simpl; try done.
      destruct parent as [parent|]; simpl; [|done]. by apply prefix_app_r.
Qed.

(** X25: for a dependency that names no source repository,
    [Pool.find_packages] scans the clients before the secondary boundary
    only (all of them when no boundary is set); the first client with a
    non-empty answer ends the scan and its answer alone is returned, no
    later client being asked; when every scanned client answers with an
    empty list, the call is handed to the parent pool if there is one and
    returns the empty list otherwise. *)
Theorem find_packages_without_source_name self dependency :
  dep_source_name dependency = None →
  let scanned :=
    match Pool._secondary_start_idx self with
    | Some boundary => take boundary (Pool._repositories self)
    | None => Pool._repositories self
    end in
  (∀ before repo after found,
     scanned = before ++ repo :: after →
     (∀ r, r ∈ before → Pool.repo_find_packages r dependency = inr []) →
     Pool.repo_find_packages repo dependency = inr found →
     found ≠ [] →
     Pool.find_packages self dependency = (before ++ [repo], inr found))
  ∧ ((∀ r, r ∈ scanned → Pool.repo_find_packages r dependency = inr []) →
     Pool.find_packages self dependency
     = match Pool._parent self with
       | Some parent =>
           (scanned ++ fst (Pool.find_packages parent dependency),
            snd (Pool.find_packages parent dependency))
       | None => (scanned, inr [])
       end).
Proof.
  destruct self as [lookup repos d hp b parent ignore pkgs].
  intros Hsource scanned. subst scanned. cbn [Pool._secondary_start_idx
    Pool._repositories Pool._parent].
  split.
  - intros before repo after found Hscanned Hbefore Hrepo Hfound.
    cbn [Pool.find_packages]. rewrite Hsource. cbn [fmap option_fmap option_map
      is_not_None andb].
    replace (Pool.slice_to b repos) with (before ++ repo :: after)
      by (by destruct b).
    rewrite (scan_find_packages_hit _ _ _ _ _ Hbefore Hrepo Hfound).
    destruct found; [done|]. by destruct parent.
  - intros Hall. cbn [Pool.find_packages]. rewrite Hsource.
    cbn [fmap option_fmap option_map is_not_None andb].
    assert (Hslice : Pool.slice_to b repos
                     = match b with Some boundary => take boundary repos | None => repos end)
      by done.
    rewrite Hslice, (scan_find_packages_miss _ _ Hall). simpl.
    destruct parent as [parent|]; [|done].
    by destruct (Pool.find_packages parent dependency).
Qed.

Lemma scan_find_packages_prefix (repos : list Pool.Repository) dependency :
  fst (Pool.scan_find_packages repos dependency) `prefix_of` repos.
Proof.
  induction repos as [|r repos IH]; simpl; [done|].
  destruct (Pool.repo_find_packages r dependency) as [e|found]; simpl.
  - apply prefix_cons, prefix_nil.
  - destruct (0 <? length found); simpl; [apply prefix_cons, prefix_nil|].
    destruct (Pool.scan_find_packages repos dependency) as [asked r0].
    by apply prefix_cons.
Qed.

(** X26: on a pool built from the empty pool by [add_repository] calls
    alone, a lookup for a dependency that names no source repository asks
    clients of the default and primary tiers only, in list order: the
    clients this pool asks are a prefix of the default followed by the
    primaries, and whatever else is asked is asked by the parent pool. *)
Theorem unnamed_lookup_asks_default_and_primaries (ms : list mutation) parent self
    dependency :
  forallb is_addition ms = true →
  apply_mutations (Pool.empty_pool parent) ms = inr self →
  dep_source_name dependency = None →
  ∃ asked,
    asked `prefix_of` defaults ms ++ primaries ms
    ∧ (fst (Pool.find_packages self dependency) = asked
       ∨ ∃ up, Pool._parent self = Some up
               ∧ fst (Pool.find_packages self dependency)
                 = asked ++ fst (Pool.find_packages up dependency)).
Proof.
  intros Hadd Hrun Hsource.
  destruct (additions_build_tiers ms parent self Hadd Hrun) as [_ Hslice].
  clear Hadd Hrun. rewrite <- Hslice. clear Hslice.
  destruct self as [lookup repos d hp b up ignore pkgs].
  cbn [Pool._secondary_start_idx Pool._repositories Pool._parent].
  exists (fst (Pool.scan_find_packages (Pool.slice_to b repos) dependency)).
  split; [apply scan_find_packages_prefix|].
  cbn [Pool.find_packages]. rewrite Hsource.
  cbn [fmap option_fmap option_map is_not_None andb].
  destruct (Pool.scan_find_packages _ dependency) as [asked [e|packages]]; simpl;
    [by left|].
  destruct up as [up|]; [|by left].
  destruct (length packages =? 0); [|by left].
  right. exists up. split; [done|].
  by destruct (Pool.find_packages up dependency).
Qed.

End pool_queries.

(** ** The versions of an index page *)

Section first_position.
Context `{EqDecision A}.
Implicit Types (v x : A) (l : list A).

Lemma first_position_cons v x l :
  first_position v (x :: l)
  = if decide (x = v) then Some 0 else S <$> first_position v l.
Proof.
  unfold first_position. simpl. case_decide; [done|].
  by destruct (list_find (λ y, y = v) l) as [[]|].
Qed.

Lemma first_position_elem_of v l : v ∈ l → ∃ a, first_position v l = Some a.
Proof.
  induction l as [|x l IH]; intros Hv; [by apply not_elem_of_nil in Hv|].
  rewrite first_position_cons. case_decide; [by eexists|].
  apply elem_of_cons in Hv as [->|Hv]; [done|].
  destruct (IH Hv) as [a ->]. by eexists.
Qed.

Lemma first_position_Some v l a :
  first_position v l = Some a →
  l !! a = Some v ∧ ∀ k, k < a → l !! k ≠ Some v.
Proof.
  unfold first_position. destruct (list_find _ l) as [[a' x]|] eqn:Hfind; [|done].
  simpl. intros [= ->]. apply list_find_Some in Hfind as (Hx & -> & Hmin).
  split; [done|]. intros k Hk Hkv. by apply (Hmin k v).
Qed.

End first_position.

Section page_versions.
Context `{Semver} `{IndexLib}.
Implicit Types (seen : list Version) (links : list Link) (v w : Version).

Lemma versions_loop_elem_of seen links v :
  v ∈ Page.versions_loop seen links
  ↔ (¬ v ∈ seen) ∧ v ∈ omap Page.link_version links.
Proof.
  revert seen. induction links as [|link links IH]; intros seen; simpl.
  - split; [by intros ?%not_elem_of_nil | by intros [_ ?%not_elem_of_nil]].
  - destruct (Page.link_version link) as [x|]; [|by apply IH].
    case_bool_decide as Hx.
    + rewrite IH, elem_of_cons. split.
      * intros [Hv Hin]. split; [done | by right].
      * intros [Hv [->|Hin]]; done.
    + rewrite !elem_of_cons, IH, not_elem_of_cons. split.
      * intros [->|[[Hne Hv] Hin]]; (split; [done|]); [by left | by right].
      * intros [Hv [->|Hin]]; [by left|].
        destruct (decide (v = x)) as [->|Hne]; [by left | by right].
Qed.

Lemma versions_loop_NoDup seen links : NoDup (Page.versions_loop seen links).
Proof.
  revert seen. induction links as [|link links IH]; intros seen; simpl.
  - constructor.
  - destruct (Page.link_version link) as [x|]; [|by apply IH].
    case_bool_decide as Hx; [by apply IH|].
    constructor; [|by apply IH].
    rewrite versions_loop_elem_of, not_elem_of_cons. by intros [[? _] _].
Qed.

Lemma versions_loop_first_seen_order seen links i j v w :
  Page.versions_loop seen links !! i = Some v →
  Page.versions_loop seen links !! j = Some w →
  i < j →
  ∃ a b, first_position v (omap Page.link_version links) = Some a
       ∧ first_position w (omap Page.link_version links) = Some b
       ∧ a < b.
Proof.
  revert seen i j. induction links as [|link links IH]; intros seen i j; simpl.
  - by rewrite lookup_nil.
  - change (list_omap _ _ Page.link_version links)
      with (omap Page.link_version links).
    destruct (Page.link_version link) as [x|]; [|by apply IH].
    case_bool_decide as Hx.
    + intros Hv Hw Hij.
      destruct (IH _ _ _ Hv Hw Hij) as (a & b & Ha & Hb & Hab).
      assert (x ≠ v).
      { intros ->. apply list_elem_of_lookup_2, versions_loop_elem_of in Hv. tauto. }
      assert (x ≠ w).
      { intros ->. apply list_elem_of_lookup_2, versions_loop_elem_of in Hw. tauto. }
      exists (S a), (S b). rewrite !first_position_cons, Ha, Hb.
      repeat case_decide; try done. repeat split; [done..|lia].
    + destruct j as [|j]; [lia|]. simpl. intros Hv Hw Hij.
      assert (Hxw : x ≠ w ∧ w ∈ omap Page.link_version links).
      { apply list_elem_of_lookup_2, versions_loop_elem_of in Hw.
        rewrite not_elem_of_cons in Hw. destruct Hw as [[Hne _] Hin].
        split; [congruence | done]. }
      destruct Hxw as [Hxw Hwin].
      destruct i as [|i]; simpl in Hv.
      * injection Hv as ->.
        destruct (first_position_elem_of _ _ Hwin) as [b Hb].
        exists 0, (S b). rewrite !first_position_cons, Hb.
        repeat case_decide; try done. repeat split; [done..|lia].
      * destruct (IH _ _ _ Hv Hw ltac:(lia)) as (a & b & Ha & Hb & Hab).
        assert (x ≠ v).
        { intros ->. apply list_elem_of_lookup_2, versions_loop_elem_of in Hv.
          rewrite not_elem_of_cons in Hv. by destruct Hv as [[? _] _]. }
        exists (S a), (S b). rewrite !first_position_cons, Ha, Hb.
        repeat case_decide; try done. repeat split; [done..|lia].
Qed.

(** C9: [Page.versions] yields every parsed version at most once, also
    when several links encode the same version; it yields exactly the
    versions that some link of the page parses to, and in the order in
    which they first appear among the page's links. *)
Theorem versions_distinct_in_first_seen_order (page : Page.Page) :
  let parsed := omap Page.link_version (Page.links page) in
  NoDup (Page.versions page)
  ∧ (∀ v, v ∈ Page.versions page
          ↔ ∃ link, link ∈ Page.links page ∧ Page.link_version link = Some v)
  ∧ (∀ i j v w,
       Page.versions page !! i = Some v →
       Page.versions page !! j = Some w →
       i < j →
       ∃ a b, first_position v parsed = Some a
            ∧ first_position w parsed = Some b
            ∧ a < b).
Proof.
  intros parsed. unfold Page.versions. split; [apply versions_loop_NoDup|]. split.
  - intros v. rewrite versions_loop_elem_of, list_elem_of_omap.
    split; [by intros [_ ?]|]. intros Hv. split; [apply not_elem_of_nil | done].
  - intros i j v w. apply versions_loop_first_seen_order.
Qed.

End page_versions.

(** ** The legacy client *)

Lemma filter_none {A} (f : A → bool) (l : list A) :
  (∀ x, x ∈ l → f x = false) → List.filter f l = [].
Proof.
  induction l as [|x l IH]; intros Hall; [done|]. cbn [List.filter].
  rewrite (Hall x) by apply list_elem_of_here.
  apply IH. intros y Hy. apply Hall. by apply list_elem_of_further.
Qed.

Lemma filter_all {A} (f : A → bool) (l : list A) :
  (∀ x, x ∈ l → f x = true) → List.filter f l = l.
Proof.
  induction l as [|x l IH]; intros Hall; [done|]. cbn [List.filter].
  rewrite (Hall x) by apply list_elem_of_here. f_equal.
  apply IH. intros y Hy. apply Hall. by apply list_elem_of_further.
Qed.

Section legacy_repository.
Context `{Semver} `{IndexLib}.
Implicit Types (self : LegacyRepository.LegacyRepository) (v : Version).

Lemma make_package_same_identity self self' dependency :
  same_identity self self' →
  LegacyRepository.make_package self' dependency
  = LegacyRepository.make_package self dependency.
Proof.
  intros [Hname Hurl]. unfold LegacyRepository.make_package.
  by rewrite Hname, Hurl.
Qed.

Lemma get_keeps_state self session_get endpoint :
  same_identity self (snd (LegacyRepository._get self session_get endpoint))
  ∧ LegacyRepository._matches (snd (LegacyRepository._get self session_get endpoint))
    = LegacyRepository._matches self.
Proof.
  unfold LegacyRepository._get, same_identity.
  destruct (session_get _) as [[]|response]; simpl; try done.
  case_bool_decide; simpl; [done|].
  case_bool_decide; simpl; [done|].
  destruct (raise_for_status _); simpl; [done|].
  by case_bool_decide.
Qed.

(** The two lists that the loop over [page.versions] builds. *)
Lemma select_versions_filter constraint allow (page_versions : list Version) :
  LegacyRepository.select_versions constraint allow page_versions
  = (List.filter (λ v, (negb (is_unstable v) || allow) && allows constraint v)
       page_versions,
     List.filter (λ v, is_unstable v && negb allow && is_any constraint)
       page_versions).
Proof.
  unfold LegacyRepository.select_versions.
  enough (Hgen : ∀ versions ignored,
    foldl (λ '(versions, ignored) version,
             if is_unstable version && negb allow then
               if is_any constraint then (versions, ignored ++ [version])
               else (versions, ignored)
             else if allows constraint version then (versions ++ [version], ignored)
             else (versions, ignored))
          (versions, ignored) page_versions
    = (versions
       ++ List.filter (λ v, (negb (is_unstable v) || allow) && allows constraint v)
            page_versions,
       ignored
       ++ List.filter (λ v, is_unstable v && negb allow && is_any constraint)
            page_versions)) by apply (Hgen [] []).
  induction page_versions as [|v vs IH]; intros versions ignored; simpl.
  - by rewrite !app_nil_r.
  - destruct (is_unstable v), allow, (is_any constraint), (allows constraint v);
      simpl; rewrite IH; by rewrite <- ?app_assoc.
Qed.

(** The loop over [(versions, ignored)]: the second list is used only
    when the first is empty and the constraint is "any". *)
Lemma build_packages_two self dependency constraint (versions ignored : list Version) :
  fst (LegacyRepository.build_packages self dependency constraint
         [versions; ignored] [])
  = LegacyRepository.make_package self dependency
    <$> (if (0 <? length versions) || negb (is_any constraint) then versions
         else versions ++ ignored).
Proof.
  cbn [LegacyRepository.build_packages]. rewrite app_nil_l, length_fmap.
  destruct ((0 <? length versions) || negb (is_any constraint)); [done|].
  rewrite fmap_app.
  by destruct (_ || _).
Qed.

Lemma store_get_has now (store : gmap string (nat * list Version)) key versions :
  LegacyRepository.store_get now store key = Some versions →
  LegacyRepository.store_has now store key = true.
Proof.
  unfold LegacyRepository.store_get, LegacyRepository.store_has.
  destruct (store !! key) as [[expires value]|]; [|done].
  by destruct (now <? expires).
Qed.

Lemma store_get_put now now' (store : gmap string (nat * list Version)) key versions ttl :
  now' < now + ttl →
  LegacyRepository.store_get now'
    (LegacyRepository.store_put now store key versions ttl) key = Some versions.
Proof.
  intros Hnow. unfold LegacyRepository.store_get, LegacyRepository.store_put.
  rewrite lookup_insert_eq.
  by destruct (Nat.ltb_spec now' (now + ttl)); [|lia].
Qed.

(** A cache hit builds the packages from the cached list alone. *)
Lemma find_packages_on_hit self session_get now dependency constraint versions :
  LegacyRepository.normalize_constraint (dep_constraint dependency) = inr constraint →
  LegacyRepository.store_get now (LegacyRepository._matches self)
    (LegacyRepository.cache_key dependency constraint) = Some versions →
  fst (LegacyRepository.find_packages self session_get now dependency)
  = inr (LegacyRepository.make_package self dependency <$> versions).
Proof.
  intros Hc Hget. unfold LegacyRepository.find_packages.
  rewrite Hc, (store_get_has _ _ _ _ Hget), Hget.
  pose proof (build_packages_two self dependency constraint versions []) as Hbuild.
  destruct (LegacyRepository.build_packages _ _ _ _ _) as [packages self'].
  simpl in *. rewrite Hbuild, app_nil_r. by destruct (_ || _).
Qed.

(** A cache miss with a page: what is returned and what is cached. *)
Lemma find_packages_on_miss self session_get now dependency constraint page :
  LegacyRepository.normalize_constraint (dep_constraint dependency) = inr constraint →
  LegacyRepository.store_has now (LegacyRepository._matches self)
    (LegacyRepository.cache_key dependency constraint) = false →
  fst (LegacyRepository._get self session_get
         ("/" +:+ LegacyRepository.replace_dots (dep_name dependency) +:+ "/"))
  = inr (Some page) →
  let allow := LegacyRepository.allow_prereleases dependency constraint in
  let versions :=
    List.filter (λ v, (negb (is_unstable v) || allow) && allows constraint v)
      (Page.versions page) in
  let ignored :=
    List.filter (λ v, is_unstable v && negb allow && is_any constraint)
      (Page.versions page) in
  fst (LegacyRepository.find_packages self session_get now dependency)
  = inr (LegacyRepository.make_package self dependency
         <$> (if (0 <? length versions) || negb (is_any constraint) then versions
              else versions ++ ignored))
  ∧ same_identity self (snd (LegacyRepository.find_packages self session_get now dependency))
  ∧ LegacyRepository._matches
      (snd (LegacyRepository.find_packages self session_get now dependency))
    = LegacyRepository.store_put now (LegacyRepository._matches self)
        (LegacyRepository.cache_key dependency constraint) versions 5.
Proof.
  intros Hc Hmiss Hget allow versions ignored.
  unfold LegacyRepository.find_packages. rewrite Hc, Hmiss.
  destruct (get_keeps_state self session_get
              ("/" +:+ LegacyRepository.replace_dots (dep_name dependency) +:+ "/"))
    as [Hid Hmatches].
  destruct (LegacyRepository._get _ _ _) as [got self1]. simpl in Hget, Hid, Hmatches.
  subst got. rewrite select_versions_filter. fold allow versions ignored.
  set (self2 := LegacyRepository.put_matches self1 now _ versions 5).
  assert (Hid2 : same_identity self self2) by (by destruct Hid).
  pose proof (build_packages_two self2 dependency constraint versions ignored) as Hbuild.
  assert (Hkeep : same_identity self2
            (snd (LegacyRepository.build_packages self2 dependency constraint
                    [versions; ignored] []))
          ∧ LegacyRepository._matches
              (snd (LegacyRepository.build_packages self2 dependency constraint
                      [versions; ignored] []))
            = LegacyRepository._matches self2).
  { cbn [LegacyRepository.build_packages]. unfold same_identity.
    by repeat (destruct (_ || _); simpl). }
  destruct (LegacyRepository.build_packages _ _ _ _ _) as [packages self3].
  simpl in *. rewrite Hbuild, (make_package_same_identity _ _ _ Hid2).
  destruct Hkeep as [[Hn3 Hu3] Hm3]. destruct Hid2 as [Hn2 Hu2].
  repeat split; [congruence..|]. by rewrite Hm3, Hmatches.
Qed.

(** C4: on a cache miss with a page, when the constraint is "any",
    prereleases are not allowed and every version of the page is
    unstable, [find_packages] returns one package per version of the
    page, the ignored prereleases. When the constraint is not "any" the
    ignored list is never used: the result holds exactly the page's
    versions that the constraint allows and that are stable or allowed
    as prereleases, be that none. *)
Theorem find_packages_prerelease_fallback self session_get now dependency constraint page :
  LegacyRepository.normalize_constraint (dep_constraint dependency) = inr constraint →
  LegacyRepository.store_has now (LegacyRepository._matches self)
    (LegacyRepository.cache_key dependency constraint) = false →
  fst (LegacyRepository._get self session_get
         ("/" +:+ LegacyRepository.replace_dots (dep_name dependency) +:+ "/"))
  = inr (Some page) →
  (is_any constraint = true →
   LegacyRepository.allow_prereleases dependency constraint = false →
   (∀ v, v ∈ Page.versions page → is_unstable v = true) →
   fst (LegacyRepository.find_packages self session_get now dependency)
   = inr (LegacyRepository.make_package self dependency <$> Page.versions page))
  ∧ (is_any constraint = false →
     ∃ versions,
       fst (LegacyRepository.find_packages self session_get now dependency)
       = inr (LegacyRepository.make_package self dependency <$> versions)
       ∧ versions
         = List.filter
             (λ v, (negb (is_unstable v)
                    || LegacyRepository.allow_prereleases dependency constraint)
                   && allows constraint v)
             (Page.versions page)
       ∧ (∀ v, v ∈ versions → allows constraint v = true)
       ∧ (LegacyRepository.allow_prereleases dependency constraint = false →
          ∀ v, v ∈ versions → is_unstable v = false)).
Proof.
  intros Hc Hmiss Hget.
  destruct (find_packages_on_miss _ _ _ _ _ _ Hc Hmiss Hget) as [Hfind _].
  rewrite Hfind. clear Hfind. split.
  - intros Hany Hallow Hunstable. rewrite Hany, Hallow. f_equal. f_equal.
    rewrite filter_none, filter_all; [done|..];
      intros v Hv; by rewrite (Hunstable v Hv).
  - intros Hany. rewrite Hany, orb_true_r. eexists. split; [done|]. split; [done|].
    split.
    + intros v Hv. apply list_elem_of_In, filter_In in Hv as [_ Hv].
      by apply andb_prop in Hv as [_ ?].
    + intros Hallow v Hv. apply list_elem_of_In, filter_In in Hv as [_ Hv].
      rewrite Hallow, orb_false_r in Hv. apply andb_prop in Hv as [Hv _].
      by apply negb_true_iff.
Qed.

(** C5 (amended): [_get] answers the statuses 401, 403 and 404 with no
    page, so that on a cache miss [find_packages], and
    [find_links_for_package], return the empty list without raising. For
    every other status that [raise_for_status] rejects, the client and
    server errors from 400 to 599, it raises [RepositoryError] around
    that HTTP error, and so do its two callers. For every remaining
    status, below 400 or from 600 on (the success statuses 2xx, and the
    1xx and 3xx statuses as well), it builds the page from the response's
    own URL, body and headers. *)
Theorem get_status_triage self session_get endpoint response :
  session_get (LegacyRepository._url self +:+ endpoint) = inr response →
  let status := status_code response in
  let absent := status ∈ [401%Z; 403%Z; 404%Z] in
  let rejected := (¬ absent ∧ 400 ≤ status < 600)%Z in
  (absent → fst (LegacyRepository._get self session_get endpoint) = inr None)
  ∧ (rejected →
     fst (LegacyRepository._get self session_get endpoint)
     = inl (RepositoryError (HTTPError status)))
  ∧ ((status < 400 ∨ 600 ≤ status)%Z →
     fst (LegacyRepository._get self session_get endpoint)
     = inr (Some (Page.init (response_url response) (response_content response)
                            (response_headers response))))
  ∧ (∀ now dependency constraint,
       endpoint = "/" +:+ LegacyRepository.replace_dots (dep_name dependency) +:+ "/" →
       LegacyRepository.normalize_constraint (dep_constraint dependency)
       = inr constraint →
       LegacyRepository.store_has now (LegacyRepository._matches self)
         (LegacyRepository.cache_key dependency constraint) = false →
       (absent →
        fst (LegacyRepository.find_packages self session_get now dependency) = inr [])
       ∧ (rejected →
          fst (LegacyRepository.find_packages self session_get now dependency)
          = inl (RepositoryError (HTTPError status))))
  ∧ (∀ package,
       endpoint = "/" +:+ LegacyRepository.replace_dots (pkg_name package) +:+ "/" →
       (absent →
        fst (LegacyRepository.find_links_for_package self session_get package)
        = inr [])
       ∧ (rejected →
          fst (LegacyRepository.find_links_for_package self session_get package)
          = inl (RepositoryError (HTTPError status)))).
Proof.
  intros Hresponse status absent rejected.
  assert (Habsent : absent →
    fst (LegacyRepository._get self session_get endpoint) = inr None).
  { unfold absent, status, LegacyRepository._get. rewrite Hresponse.
    rewrite !elem_of_cons, elem_of_nil. intros Hstatus.
    case_bool_decide as H1; [done|]. case_bool_decide as H2; [done|].
    rewrite !elem_of_cons, elem_of_nil in H1. tauto. }
  assert (Hpresent : ¬ absent →
    bool_decide (status_code response ∈ [401%Z; 403%Z]) = false
    ∧ bool_decide (status_code response = 404%Z) = false).
  { unfold absent, status. rewrite !elem_of_cons, elem_of_nil. intros Hstatus.
    split; apply bool_decide_eq_false_2; [|tauto].
    rewrite !elem_of_cons, elem_of_nil. tauto. }
  assert (Hrejected : rejected →
    fst (LegacyRepository._get self session_get endpoint)
    = inl (RepositoryError (HTTPError status))).
  { intros [[H1 H2]%Hpresent Hrange]. unfold LegacyRepository._get.
    rewrite Hresponse, H1, H2. unfold raise_for_status. fold status.
    destruct (Z.leb_spec 400 status); [|lia].
    by destruct (Z.ltb_spec status 600); [|lia]. }
  split; [done|]. split; [done|]. split; [|split].
  - intros Hrange.
    assert (Hout : ¬ absent).
    { unfold absent. rewrite !elem_of_cons, elem_of_nil. lia. }
    destruct (Hpresent Hout) as [H1 H2]. unfold LegacyRepository._get.
    rewrite Hresponse, H1, H2. unfold raise_for_status. fold status.
    assert (((400 <=? status) && (status <? 600))%Z = false) as ->.
    { destruct (Z.leb_spec 400 status), (Z.ltb_spec status 600); try done. lia. }
    by case_bool_decide.
  - intros now dependency constraint -> Hc Hmiss.
    unfold LegacyRepository.find_packages. rewrite Hc, Hmiss.
    split; intros Hstatus.
    + specialize (Habsent Hstatus).
      by destruct (LegacyRepository._get _ _ _) as [[|[]] ?]; simplify_eq/=.
    + specialize (Hrejected Hstatus).
      by destruct (LegacyRepository._get _ _ _) as [[|[]] ?]; simplify_eq/=.
  - intros package ->. unfold LegacyRepository.find_links_for_package.
    split; intros Hstatus.
    + specialize (Habsent Hstatus).
      by destruct (LegacyRepository._get _ _ _) as [[|[]] ?]; simplify_eq/=.
    + specialize (Hrejected Hstatus).
      by destruct (LegacyRepository._get _ _ _) as [[|[]] ?]; simplify_eq/=.
Qed.

(** C6: in [find_packages] the prerelease allowance is forced to true
    when the normalized constraint is a version range whose stated
    minimum or maximum bound is an unstable version, whatever the
    dependency's own flag says; otherwise it is the dependency's flag.
    With a forced allowance a cache miss returns every version of the
    page that the constraint allows, unstable ones included. *)
Theorem prerelease_allowance dependency constraint :
  (∀ min max,
     as_version_range constraint = Some (min, max) →
     (∃ v, min = Some v ∧ is_unstable v = true)
     ∨ (∃ v, max = Some v ∧ is_unstable v = true) →
     LegacyRepository.allow_prereleases dependency constraint = true
     ∧ ∀ self session_get now page,
         LegacyRepository.normalize_constraint (dep_constraint dependency)
         = inr constraint →
         LegacyRepository.store_has now (LegacyRepository._matches self)
           (LegacyRepository.cache_key dependency constraint) = false →
         fst (LegacyRepository._get self session_get
                ("/" +:+ LegacyRepository.replace_dots (dep_name dependency) +:+ "/"))
         = inr (Some page) →
         fst (LegacyRepository.find_packages self session_get now dependency)
         = inr (LegacyRepository.make_package self dependency
                <$> List.filter (allows constraint) (Page.versions page)))
  ∧ (as_version_range constraint = None
     ∨ (∃ min max,
          as_version_range constraint = Some (min, max)
          ∧ (∀ v, min = Some v → is_unstable v = false)
          ∧ (∀ v, max = Some v → is_unstable v = false)) →
     LegacyRepository.allow_prereleases dependency constraint
     = dep_allows_prereleases dependency).
Proof.
  split.
  - intros min max Hrange Hbound.
    assert (Hallow : LegacyRepository.allow_prereleases dependency constraint = true).
    { unfold LegacyRepository.allow_prereleases. rewrite Hrange.
      destruct Hbound as [(v & -> & Hv)|(v & -> & Hv)]; simpl; rewrite Hv;
        by rewrite ?orb_true_r. }
    split; [done|]. intros self session_get now page Hc Hmiss Hget.
    destruct (find_packages_on_miss _ _ _ _ _ _ Hc Hmiss Hget) as [Hfind _].
    rewrite Hfind, Hallow. clear Hfind. f_equal. f_equal.
    rewrite (filter_none (λ v, is_unstable v && negb true && is_any constraint))
      by (intros v _; by rewrite andb_false_r).
    rewrite app_nil_r.
    rewrite (filter_ext (λ v, (negb (is_unstable v) || true) && allows constraint v)
               (allows constraint)) by (intros v; by rewrite orb_true_r).
    by destruct (_ || _).
  - unfold LegacyRepository.allow_prereleases.
    intros [->|(min & max & -> & Hmin & Hmax)]; [done|].
    destruct min as [v|], max as [w|]; simpl;
      rewrite ?(Hmin v), ?(Hmax w) by done; done.
Qed.

(** C10: on a hit of the matched-versions cache [find_packages] builds
    its packages from the cached list alone and never reaches the
    ignored prereleases. So, for a package whose page lists unstable
    versions only, asked for with an "any" constraint and prereleases
    not allowed, the first call (a cache miss) returns those prereleases
    but caches the empty list, and the same call made again before the
    entry expires, five time units later, returns the empty list,
    whatever the index then serves. *)
Theorem find_packages_cache_hit_skips_fallback :
  (∀ self session_get now dependency constraint versions,
     LegacyRepository.normalize_constraint (dep_constraint dependency)
     = inr constraint →
     LegacyRepository.store_get now (LegacyRepository._matches self)
       (LegacyRepository.cache_key dependency constraint) = Some versions →
     fst (LegacyRepository.find_packages self session_get now dependency)
     = inr (LegacyRepository.make_package self dependency <$> versions))
  ∧ (∀ self session_get now dependency constraint page,
       LegacyRepository.normalize_constraint (dep_constraint dependency)
       = inr constraint →
       LegacyRepository.store_has now (LegacyRepository._matches self)
         (LegacyRepository.cache_key dependency constraint) = false →
       fst (LegacyRepository._get self session_get
              ("/" +:+ LegacyRepository.replace_dots (dep_name dependency) +:+ "/"))
       = inr (Some page) →
       is_any constraint = true →
       LegacyRepository.allow_prereleases dependency constraint = false →
       (∀ v, v ∈ Page.versions page → is_unstable v = true) →
       let first := LegacyRepository.find_packages self session_get now dependency in
       fst first
       = inr (LegacyRepository.make_package self dependency <$> Page.versions page)
       ∧ ∀ session_get' now',
           now' < now + 5 →
           LegacyRepository.store_get now' (LegacyRepository._matches (snd first))
             (LegacyRepository.cache_key dependency constraint) = Some []
           ∧ fst (LegacyRepository.find_packages (snd first) session_get' now' dependency)
             = inr []).
Proof.
  split; [apply find_packages_on_hit|].
  intros self session_get now dependency constraint page Hc Hmiss Hget Hany Hallow
    Hunstable first.
  destruct (find_packages_on_miss _ _ _ _ _ _ Hc Hmiss Hget) as (Hfind & Hid & Hcached).
  fold first in Hfind, Hid, Hcached.
  rewrite Hany, Hallow in Hfind. rewrite Hallow in Hcached.
  assert (Hnone :
    List.filter (λ v, (negb (is_unstable v) || false) && allows constraint v)
      (Page.versions page) = []).
  { apply filter_none. intros v Hv. by rewrite (Hunstable v Hv). }
  assert (Hall :
    List.filter (λ v, is_unstable v && negb false && true) (Page.versions page)
    = Page.versions page).
  { apply filter_all. intros v Hv. by rewrite (Hunstable v Hv). }
  rewrite Hnone, Hall in Hfind. rewrite Hnone in Hcached. split; [done|].
  intros session_get' now' Hnow.
  assert (Hget' :
    LegacyRepository.store_get now' (LegacyRepository._matches (snd first))
      (LegacyRepository.cache_key dependency constraint) = Some []).
  { rewrite Hcached. by apply store_get_put. }
  split; [done|].
  by rewrite (find_packages_on_hit _ session_get' _ _ _ _ Hc Hget').
Qed.

End legacy_repository.

(** ** The pool on concrete runs *)

Section pool_runs.
#[local] Existing Instance Sample.semver.

Lemma add_default_repository_witness :
  (Pool.has_default (Pool.empty_pool None) = false
   ∧ ∃ self', Pool.add_repository (Pool.empty_pool None) (Sample.silent "Main") true false
              = inr self'
       ∧ Pool._lookup self' !! Some "main" = Some 0
       ∧ Pool.repository self' (Some "Main") = inr (Sample.silent "Main"))
  ∧ (Pool.has_default (Sample.pool_of [Add (Sample.silent "Main") true false]) = true
     ∧ Pool.add_repository (Sample.pool_of [Add (Sample.silent "Main") true false])
         (Sample.silent "other") true false
       = inl (ValueError "Only one repository can be the default")).
Proof.
  split.
  - split; [reflexivity|].
    destruct (proj2 (add_default_repository (Pool.empty_pool None)
                       (Sample.silent "Main") false) eq_refl)
      as (self' & Hadd & _ & _ & _ & _ & _ & Hzero & Hres & _).
    exists self'. split; [exact Hadd|]. split; [exact Hzero | exact Hres].
  - split; [reflexivity|].
    apply (proj1 (add_default_repository _ (Sample.silent "other") false)).
    reflexivity.
Defined.

(** C7, as stated, fails: three primaries, one secondary and one more
    primary leave five repositories in the list, the new one fourth; the
    list is not of the stated four-entry form, and with a default in
    front it is not of the stated five-entry form either. *)
Lemma three_primaries_secondary_primary_order :
  Sample.names (Sample.pool_of Sample.three_primaries_one_secondary_one_primary)
  = [Some "primary1"; Some "primary2"; Some "primary3"; Some "primary4";
     Some "secondary1"]
  ∧ (¬ ∃ new,
       Sample.names (Sample.pool_of Sample.three_primaries_one_secondary_one_primary)
       = [Some "primary1"; Some "primary2"; new; Some "secondary1"])
  ∧ (¬ ∃ new,
       Sample.names
         (Sample.pool_of (Add (Sample.silent "default") true false
                          :: Sample.three_primaries_one_secondary_one_primary))
       = [Some "default"; Some "primary1"; Some "primary2"; new; Some "secondary1"]).
Proof.
  split; [reflexivity|]. split; intros [new Hnew]; vm_compute in Hnew; discriminate.
Qed.

Lemma primary_lands_before_secondary_boundary_witness :
  (let self := Sample.pool_of [Add (Sample.silent "a") false false;
                               Add (Sample.silent "z") false true] in
   Pool._secondary_start_idx self = Some 1
   ∧ ∃ self', Pool.add_repository self (Sample.silent "b") false false = inr self'
       ∧ Pool._repositories self' !! 1 = Some (Sample.silent "b")
       ∧ Pool._secondary_start_idx self' = Some 2)
  ∧ (Pool._secondary_start_idx (Sample.pool_of [Add (Sample.silent "default") true false])
     = None
     ∧ ∃ self',
         apply_mutations (Sample.pool_of [Add (Sample.silent "default") true false])
           Sample.three_primaries_one_secondary_one_primary = inr self'
         ∧ Sample.names self'
           = [Some "default"; Some "primary1"; Some "primary2"; Some "primary3";
              Some "primary4"; Some "secondary1"]).
Proof.
  split.
  - split; [reflexivity|].
    destruct (proj1 primary_lands_before_secondary_boundary
                (Sample.pool_of [Add (Sample.silent "a") false false;
                                 Add (Sample.silent "z") false true])
                (Sample.silent "b") 1 eq_refl)
      as (self' & Hadd & _ & Hat & _ & _ & Hb).
    exists self'. split; [exact Hadd|]. split; [|exact Hb].
    apply Hat. vm_compute. lia.
  - split; [reflexivity|].
    destruct (proj2 primary_lands_before_secondary_boundary
                (Sample.pool_of [Add (Sample.silent "default") true false])
                (Sample.silent "primary1") (Sample.silent "primary2")
                (Sample.silent "primary3") (Sample.silent "secondary1")
                (Sample.silent "primary4") eq_refl)
      as (self' & Hrun & Hrepos & _).
    exists self'. split; [exact Hrun|].
    unfold Sample.names. rewrite Hrepos. reflexivity.
Defined.

(** C1: the code breaks the invariant on removal. After adding [a] and
    [b] and removing [a], the list holds [b] alone while the lookup
    table still maps [a] to 0 and [b] to 1: [a] resolves to the client
    [b], and looking up [b] indexes past the end of the list. *)
Theorem remove_repository_leaves_lookup_stale :
  ∃ self',
    apply_mutations (Pool.empty_pool None)
      [Add (Sample.silent "a") false false; Add (Sample.silent "b") false false;
       Remove (Some "a")] = inr self'
    ∧ Sample.names self' = [Some "b"]
    ∧ Pool._lookup self' !! Some "a" = Some 0
    ∧ Pool._lookup self' !! Some "b" = Some 1
    ∧ Pool.repository self' (Some "a") = inr (Sample.silent "b")
    ∧ Pool.repository self' (Some "b") = inl IndexError
    ∧ ¬ lookup_consistent self'.
Proof.
  eexists. split; [reflexivity|]. repeat split; try reflexivity.
  intros Hl. destruct (Hl (Some "b") 1) as (r & Hr & _); [reflexivity|].
  vm_compute in Hr. discriminate.
Qed.

(** C2, as stated, fails when name matching is bypassed: the hinted
    client [second] exists and would raise [PackageNotFound], and there
    is no parent pool, yet the call neither asks it nor fails; it asks
    [first], the head of the list, and returns its package. *)
Lemma bypassed_hint_is_not_asked :
  let ask := Pool.package Sample.bypassing_pool "demo" "1.0" (ManagedProject ".") None
               (Some "second") in
  Pool._ignore_repository_names Sample.bypassing_pool = true
  ∧ Pool._parent Sample.bypassing_pool = None
  ∧ Pool.repository Sample.bypassing_pool (Some "second") = inr (Sample.silent "second")
  ∧ Pool.repo_package (Sample.silent "second") "demo" "1.0" (ManagedProject ".") None
    = inl (PackageNotFound "demo")
  ∧ fst ask = [Sample.serving "first" ["1.0"]]
  ∧ snd ask = inr (Some (Sample.release "demo" "1.0"),
                   Pool.record_package Sample.bypassing_pool (Sample.release "demo" "1.0"))
  ∧ fst ask ≠ [Sample.silent "second"]
  ∧ ¬ (∃ msg, snd ask = inl (PackageNotFound msg)).
Proof.
  repeat split; try reflexivity.
  - intros Heq. vm_compute in Heq. discriminate.
  - intros [msg Heq]. vm_compute in Heq. discriminate.
Qed.

Lemma package_asks_hinted_repository_witness :
  let self := Sample.pool_of [Add (Sample.silent "first") false false;
                              Add (Sample.serving "second" ["1.0"]) false false] in
  (is_ManagedProject (ManagedProject ".") = true
   ∧ Pool._ignore_repository_names self = false
   ∧ Pool.has_repository self (Some "First") = true
   ∧ Pool.has_repository self (Some "SECOND") = true
   ∧ Pool._ignore_repository_names Sample.bypassing_pool = true)
  ∧ (∃ repo, Pool.repository self (Some "First") = inr repo
             ∧ Pool.repository_name repo = Some "first")
  ∧ Pool.package self "demo" "1.0" (ManagedProject ".") None (Some "First")
    = ([Sample.silent "first"], inl (PackageNotFound "Package demo (1.0) not found."))
  ∧ Pool.package self "demo" "1.0" (ManagedProject ".") None (Some "SECOND")
    = ([Sample.serving "second" ["1.0"]], inr (Some (Sample.release "demo" "1.0"), self))
  ∧ Pool.package Sample.bypassing_pool "demo" "1.0" (ManagedProject ".") None
      (Some "second")
    = ([Sample.serving "first" ["1.0"]],
       inr (Some (Sample.release "demo" "1.0"),
            Pool.record_package Sample.bypassing_pool (Sample.release "demo" "1.0"))).
Proof.
  intros self.
  assert (Hl : lookup_consistent self).
  { apply (additions_keep_lookup_consistent
             [Add (Sample.silent "first") false false;
              Add (Sample.serving "second" ["1.0"]) false false]
             (Pool.empty_pool None) self);
      [reflexivity | apply empty_pool_lookup_consistent..| reflexivity]. }
  split; [repeat split; reflexivity|].
  destruct (package_asks_hinted_repository self "demo" "1.0" (ManagedProject ".") None
              "First" eq_refl) as [Hfirst _].
  destruct (Hfirst eq_refl eq_refl) as [Hresolved Hcall].
  split; [exact (Hresolved Hl)|]. split; [exact Hcall|].
  destruct (package_asks_hinted_repository self "demo" "1.0" (ManagedProject ".") None
              "SECOND" eq_refl) as [Hsecond _].
  split; [exact (proj2 (Hsecond eq_refl eq_refl))|].
  destruct (package_asks_hinted_repository Sample.bypassing_pool "demo" "1.0"
              (ManagedProject ".") None "second" eq_refl) as [_ Hbypassed].
  destruct (Hbypassed eq_refl) as [Hhit _].
  apply (Hhit [] (Sample.serving "first" ["1.0"]) [Sample.silent "second"]
           (Sample.release "demo" "1.0")).
  - reflexivity.
  - intros r Hr. destruct (not_elem_of_nil r Hr).
  - reflexivity.
Defined.

(** C3: the code lets an unnamed lookup reach a secondary repository
    once a primary has been removed. With the primary [p] and the
    secondary [s] in the pool, the boundary is 1 and a lookup for a
    dependency without source name asks [p] alone, although it finds
    nothing there. [remove_repository] then deletes the slot of [p] and
    leaves the boundary at 1: the list is [s] alone, the slice before the
    boundary holds the secondary, and the same lookup asks [s] and
    returns its packages. *)
Theorem removal_exposes_secondary_to_unnamed_lookup :
  let p := Sample.silent "p" in
  let s := Sample.serving "s" ["9.0"] in
  let dependency := Sample.wants "demo" ConstraintNone in
  ∃ built removed,
    apply_mutations (Pool.empty_pool None) [Add p false false; Add s false true]
    = inr built
    ∧ secondaries [Add p false false; Add s false true] = [s]
    ∧ Pool._repositories built = [p; s]
    ∧ Pool._secondary_start_idx built = Some 1
    ∧ dep_source_name dependency = None
    ∧ Pool.find_packages built dependency = ([p], inr [])
    ∧ Pool.remove_repository built (Some "p") = inr removed
    ∧ Pool._repositories removed = [s]
    ∧ Pool._secondary_start_idx removed = Some 1
    ∧ Pool.slice_to (Pool._secondary_start_idx removed) (Pool._repositories removed)
      = [s]
    ∧ Pool.find_packages removed dependency
      = ([s], inr [Sample.release "demo" "9.0"]).
Proof.
  intros p s dependency. eexists. eexists.
  split; [reflexivity|]. split; [reflexivity|]. split; [reflexivity|].
  split; [reflexivity|]. split; [reflexivity|]. split; [reflexivity|].
  split; [reflexivity|]. repeat split; reflexivity.
Qed.

Lemma find_packages_without_source_name_witness :
  let self := Sample.pool_of [Add (Sample.serving "first" ["1.0"]) false false;
                              Add (Sample.serving "second" ["1.0"; "1.1"; "2.0"]) false false;
                              Add (Sample.serving "third" ["9.0"]) false true] in
  let quiet := Sample.pool_of [Add (Sample.silent "first") false false;
                               Add (Sample.serving "third" ["9.0"]) false true] in
  dep_source_name (Sample.wants "demo" ConstraintNone) = None
  ∧ Pool.find_packages self (Sample.wants "demo" ConstraintNone)
    = ([Sample.serving "first" ["1.0"]], inr [Sample.release "demo" "1.0"])
  ∧ Pool.find_packages quiet (Sample.wants "demo" ConstraintNone)
    = ([Sample.silent "first"], inr []).
Proof.
  intros self quiet. split; [reflexivity|]. split.
  - apply (proj1 (find_packages_without_source_name self
                    (Sample.wants "demo" ConstraintNone) eq_refl)
             [] (Sample.serving "first" ["1.0"])
             [Sample.serving "second" ["1.0"; "1.1"; "2.0"]]
             [Sample.release "demo" "1.0"]).
    + reflexivity.
    + intros r Hr. by apply not_elem_of_nil in Hr.
    + reflexivity.
    + discriminate.
  - apply (proj2 (find_packages_without_source_name quiet
                    (Sample.wants "demo" ConstraintNone) eq_refl)).
    intros r Hr. apply list_elem_of_singleton in Hr. subst r. reflexivity.
Defined.

End pool_runs.

(** ** The legacy client on concrete runs *)

Section legacy_runs.
#[local] Existing Instance Sample.semver.
#[local] Existing Instance Sample.index_lib.

Example version_regex_takes_digit_led_suffix :
  Page.VERSION_REGEX_group2 "name-1.2.3" = Some "1.2.3"
  ∧ Page.VERSION_REGEX_group2 "my-pkg-2-1.0b1" = Some "2-1.0b1"
  ∧ Page.VERSION_REGEX_group2 "nodigits-abc" = None.
Proof. repeat split; reflexivity. Qed.

Example clean_link_escapes_blank :
  Page.clean_link "http://a b/c%20d" = "http://a%20b/c%20d".
Proof. reflexivity. Qed.

Example links_skip_unsupported_extension :
  link_url <$> Page.links (Page.init "http://x/demo" "demo-1.0.tar.gz notes.txt" [])
  = ["http://x/demo/demo-1.0.tar.gz"].
Proof. reflexivity. Qed.

Lemma versions_distinct_in_first_seen_order_witness :
  let page :=
    Page.init "http://x/django"
      "django-4.0a1-py3-none-any.whl django-4.0a1.tar.gz django-3.2.tar.gz" [] in
  (Page.versions page !! 0 = Some "4.0a1"
   ∧ Page.versions page !! 1 = Some "3.2"
   ∧ 0 < 1)
  ∧ Page.versions page = ["4.0a1"; "3.2"]
  ∧ ∃ a b,
      first_position (Sample.version "4.0a1")
        (omap Page.link_version (Page.links page)) = Some a
      ∧ first_position (Sample.version "3.2")
          (omap Page.link_version (Page.links page)) = Some b
      ∧ a < b.
Proof.
  intros page. split; [repeat split; [reflexivity..|lia]|]. split; [reflexivity|].
  apply (proj2 (proj2 (versions_distinct_in_first_seen_order page)) 0 1
           (Sample.version "4.0a1") (Sample.version "3.2"));
    [reflexivity | reflexivity | lia].
Defined.

Lemma find_packages_prerelease_fallback_witness :
  let self := Sample.legacy "repo" "http://x/" in
  let only_prereleases := Sample.server 200 "django-4.0a1-py3-none-any.whl" in
  let django := Sample.wants "django" ConstraintNone in
  let django_page := Page.init "http://x/django/" "django-4.0a1-py3-none-any.whl" [] in
  let two_releases := Sample.server 200 "flask-1.9.tar.gz flask-2.1.tar.gz" in
  let flask := Sample.wants "flask" (ConstraintText "2.1") in
  (LegacyRepository.normalize_constraint (dep_constraint django) = inr Sample.Any
   ∧ LegacyRepository.store_has 0 (LegacyRepository._matches self) "django" = false
   ∧ fst (LegacyRepository._get self only_prereleases "/django/")
     = inr (Some django_page)
   ∧ Page.versions django_page = [Sample.version "4.0a1"]
   ∧ is_unstable (Sample.version "4.0a1") = true)
  ∧ fst (LegacyRepository.find_packages self only_prereleases 0 django)
    = inr (LegacyRepository.make_package self django <$> Page.versions django_page)
  ∧ ∃ versions,
      fst (LegacyRepository.find_packages self two_releases 0 flask)
      = inr (LegacyRepository.make_package self flask <$> versions)
      ∧ versions = [Sample.version "2.1"].
Proof.
  intros self only_prereleases django django_page two_releases flask.
  split; [repeat split; vm_compute; reflexivity|]. split.
  - unshelve eapply
      (proj1 (find_packages_prerelease_fallback self only_prereleases 0
                django Sample.Any django_page _ _ _));
      [vm_compute; reflexivity..|].
    intros v Hv. apply list_elem_of_singleton in Hv. subst v. reflexivity.
  - unshelve epose proof
      (proj2 (find_packages_prerelease_fallback self two_releases 0
                flask (Sample.Exactly "2.1")
                (Page.init "http://x/flask/" "flask-1.9.tar.gz flask-2.1.tar.gz" [])
                _ _ _) _) as H;
      [vm_compute; reflexivity..|].
    destruct H as (versions & Hfind & Hversions & _).
    exists versions. split; [exact Hfind|]. rewrite Hversions. vm_compute. reflexivity.
Defined.

(** C5, as stated, fails for a status that is no success and that
    [raise_for_status] lets through: an answer with status 300 (or 304,
    or 199) is neither absent nor raised on, and its body is parsed into
    a page, from which [find_packages] builds a package. *)
Lemma multiple_choices_status_is_parsed :
  let self := Sample.legacy "repo" "http://x/" in
  let index := Sample.server 300 "django-3.2.tar.gz" in
  let django := Sample.wants "django" ConstraintNone in
  ¬ (200 ≤ 300 < 300)%Z
  ∧ fst (LegacyRepository._get self index "/django/")
    = inr (Some (Page.init "http://x/django/" "django-3.2.tar.gz" []))
  ∧ (¬ ∃ e, fst (LegacyRepository._get self index "/django/") = inl e)
  ∧ fst (LegacyRepository.find_packages self index 0 django)
    = inr [LegacyRepository.make_package self django (Sample.version "3.2")]
  ∧ (¬ ∃ e,
       fst (LegacyRepository._get self (Sample.server 304 "") "/django/") = inl e)
  ∧ (¬ ∃ e,
       fst (LegacyRepository._get self (Sample.server 199 "") "/django/") = inl e).
Proof.
  intros self index django. split; [lia|]. split; [reflexivity|].
  split; [intros [e He]; vm_compute in He; discriminate|].
  split; [reflexivity|].
  split; intros [e He]; vm_compute in He; discriminate.
Qed.

Lemma get_status_triage_witness :
  let self := Sample.legacy "repo" "http://x/" in
  fst (LegacyRepository._get self (Sample.server 401 "") "/django/") = inr None
  ∧ fst (LegacyRepository.find_packages self (Sample.server 401 "") 0
           (Sample.wants "django" ConstraintNone)) = inr []
  ∧ fst (LegacyRepository.find_links_for_package self (Sample.server 404 "")
           (Sample.release "django" "3.2")) = inr []
  ∧ fst (LegacyRepository._get self (Sample.server 500 "") "/django/")
    = inl (RepositoryError (HTTPError 500))
  ∧ fst (LegacyRepository.find_packages self (Sample.server 500 "") 0
           (Sample.wants "django" ConstraintNone))
    = inl (RepositoryError (HTTPError 500))
  ∧ fst (LegacyRepository._get self (Sample.server 200 "django-3.2.tar.gz") "/django/")
    = inr (Some (Page.init "http://x/django/" "django-3.2.tar.gz" []))
  ∧ fst (LegacyRepository._get self (Sample.server 300 "django-3.2.tar.gz") "/django/")
    = inr (Some (Page.init "http://x/django/" "django-3.2.tar.gz" [])).
Proof.
  intros self.
  assert (Hin401 : (401 ∈ [401; 403; 404])%Z) by apply list_elem_of_here.
  assert (Hin404 : (404 ∈ [401; 403; 404])%Z)
    by apply list_elem_of_further, list_elem_of_further, list_elem_of_here.
  assert (Hout : ¬ (500 ∈ [401; 403; 404])%Z).
  { rewrite !elem_of_cons, elem_of_nil. lia. }
  split; [|split; [|split; [|split; [|split; [|split]]]]].
  - exact (proj1 (get_status_triage self (Sample.server 401 "") "/django/"
                    (mkResponse 401 "http://x/django/" "" []) eq_refl) Hin401).
  - exact (proj1 (proj1 (proj2 (proj2 (proj2
             (get_status_triage self (Sample.server 401 "") "/django/"
                (mkResponse 401 "http://x/django/" "" []) eq_refl))))
             0 (Sample.wants "django" ConstraintNone) Sample.Any
             eq_refl eq_refl eq_refl) Hin401).
  - exact (proj1 (proj2 (proj2 (proj2 (proj2
             (get_status_triage self (Sample.server 404 "") "/django/"
                (mkResponse 404 "http://x/django/" "" []) eq_refl))))
             (Sample.release "django" "3.2") eq_refl) Hin404).
  - apply (proj1 (proj2 (get_status_triage self (Sample.server 500 "") "/django/"
                           (mkResponse 500 "http://x/django/" "" []) eq_refl))).
    split; [exact Hout | simpl; lia].
  - apply (proj2 (proj1 (proj2 (proj2 (proj2
             (get_status_triage self (Sample.server 500 "") "/django/"
                (mkResponse 500 "http://x/django/" "" []) eq_refl))))
             0 (Sample.wants "django" ConstraintNone) Sample.Any
             eq_refl eq_refl eq_refl)).
    split; [exact Hout | simpl; lia].
  - apply (proj1 (proj2 (proj2
             (get_status_triage self (Sample.server 200 "django-3.2.tar.gz") "/django/"
                (mkResponse 200 "http://x/django/" "django-3.2.tar.gz" []) eq_refl)))).
    simpl. lia.
  - apply (proj1 (proj2 (proj2
             (get_status_triage self (Sample.server 300 "django-3.2.tar.gz") "/django/"
                (mkResponse 300 "http://x/django/" "django-3.2.tar.gz" []) eq_refl)))).
    simpl. lia.
Defined.

Lemma prerelease_allowance_witness :
  let range := Sample.Between (Some "1.0a1") None in
  let bounded := Sample.wants "demo" (ConstraintObject range) in
  let self := Sample.legacy "repo" "http://x/" in
  let index :=
    Sample.server 200 "demo-0.9.tar.gz demo-1.0a1.tar.gz demo-1.1b2.tar.gz" in
  let page :=
    Page.init "http://x/demo/" "demo-0.9.tar.gz demo-1.0a1.tar.gz demo-1.1b2.tar.gz" [] in
  (as_version_range range = Some (Some (Sample.version "1.0a1"), None)
   ∧ is_unstable (Sample.version "1.0a1") = true
   ∧ dep_allows_prereleases bounded = false
   ∧ List.filter (allows range) (Page.versions page)
     = [Sample.version "1.0a1"; Sample.version "1.1b2"])
  ∧ LegacyRepository.allow_prereleases bounded range = true
  ∧ fst (LegacyRepository.find_packages self index 0 bounded)
    = inr (LegacyRepository.make_package self bounded
           <$> List.filter (allows range) (Page.versions page))
  ∧ LegacyRepository.allow_prereleases (Sample.wants "demo" ConstraintNone) Sample.Any
    = dep_allows_prereleases (Sample.wants "demo" ConstraintNone).
Proof.
  intros range bounded self index page.
  split; [repeat split; vm_compute; reflexivity|].
  destruct (proj1 (prerelease_allowance bounded range)
              (Some (Sample.version "1.0a1")) None eq_refl)
    as [Hallow Hfind].
  { left. exists (Sample.version "1.0a1"). split; reflexivity. }
  split; [exact Hallow|]. split.
  - apply Hfind; vm_compute; reflexivity.
  - apply (proj2 (prerelease_allowance (Sample.wants "demo" ConstraintNone) Sample.Any)).
    right. exists None, None.
    split; [reflexivity|]. split; intros v Hv; discriminate Hv.
Defined.

Lemma find_packages_cache_hit_skips_fallback_witness :
  let self := Sample.legacy "repo" "http://x/" in
  let index := Sample.server 200 "django-4.0a1-py3-none-any.whl" in
  let django := Sample.wants "django" ConstraintNone in
  let page := Page.init "http://x/django/" "django-4.0a1-py3-none-any.whl" [] in
  let first := LegacyRepository.find_packages self index 0 django in
  (Page.versions page = [Sample.version "4.0a1"] ∧ 4 < 0 + 5)
  ∧ (fst first = inr (LegacyRepository.make_package self django <$> Page.versions page)
     ∧ LegacyRepository.store_get 4 (LegacyRepository._matches (snd first))
         (LegacyRepository.cache_key django Sample.Any) = Some []
     ∧ fst (LegacyRepository.find_packages (snd first) index 4 django) = inr [])
  ∧ fst (LegacyRepository.find_packages (snd first) (Sample.server 500 "") 3 django)
    = inr (LegacyRepository.make_package (snd first) django <$> []).
Proof.
  intros self index django page first.
  split; [split; [vm_compute; reflexivity | lia]|]. split.
  - unshelve epose proof
      (proj2 find_packages_cache_hit_skips_fallback self index 0 django
         Sample.Any page _ _ _ _ _ _) as H;
      [vm_compute; reflexivity..| |].
    { intros v Hv. apply list_elem_of_singleton in Hv. subst v. reflexivity. }
    destruct H as [Hfirst Hagain].
    split; [exact Hfirst|]. apply (Hagain index 4). lia.
  - apply (proj1 find_packages_cache_hit_skips_fallback (snd first)
             (Sample.server 500 "") 3 django Sample.Any []);
      vm_compute; reflexivity.
Defined.

End legacy_runs.

(** * Further properties of the pool *)

Section pool_registry.
Context `{Semver}.
Implicit Types (self : Pool.Pool) (r : Pool.Repository).



(** X1: a pool built from the empty pool by [add_repository] calls alone
    has a consistent lookup table and a boundary within the list, and
    every name that [has_repository] accepts is resolved by [repository]
    to a client of that name (never an [IndexError]). *)
Theorem pool_built_by_additions_resolves_names (ms : list mutation) parent self :
  forallb is_addition ms = true →
  apply_mutations (Pool.empty_pool parent) ms = inr self →
  lookup_consistent self
  ∧ boundary_in_range self
  ∧ ∀ name, Pool.has_repository self name = true →
      ∃ r, Pool.repository self name = inr r
         ∧ Pool.repository_name r = lower <$> name.
Proof.
  intros Hadd Hrun.
  destruct (empty_pool_lookup_consistent parent) as [Hl0 Hb0].
  destruct (additions_keep_lookup_consistent ms _ _ Hadd Hl0 Hb0 Hrun) as [Hl Hb].
  split; [done|]. split; [done|].
  intros name Hhas. unfold Pool.has_repository in Hhas.
  apply bool_decide_eq_true in Hhas as [idx Hidx].
  destruct (Hl _ _ Hidx) as (r & Hr & Hname).
  exists r. unfold Pool.repository. by rewrite Hidx, Hr.
Qed.


(** X3: after a successful [add_repository] on a pool whose boundary lies
    within the list, the new repository's name is known to the pool and
    resolves to the new repository, whatever its tier. *)
Theorem added_repository_is_found self r default secondary self' :
  boundary_in_range self →
  Pool.add_repository self r default secondary = inr self' →
  Pool.has_repository self' (Pool.repo_name r) = true
  ∧ Pool.repository self' (Pool.repo_name r) = inr r.
Proof.
  intros Hb Hadd.
  assert (Hfound : ∃ idx,
    Pool._lookup self' !! Pool.repository_name r = Some idx
    ∧ Pool._repositories self' !! idx = Some r).
  { revert Hadd. unfold Pool.add_repository. destruct default.
    { destruct (Pool.has_default self); [done|]. intros [= <-]. exists 0. simpl.
      by rewrite lookup_insert_eq. }
    destruct secondary.
    { intros [= <-]. eexists. simpl. rewrite lookup_insert_eq. split; [done|].
      apply list_lookup_middle. rewrite length_app. simpl. lia. }
    destruct (Pool._secondary_start_idx self) as [b|] eqn:Hb0; intros [= <-].
    - exists b. simpl. rewrite lookup_insert_eq. split; [done|].
      apply list_insert_at_lookup_eq. by apply Hb.
    - eexists. simpl. rewrite lookup_insert_eq. split; [done|].
      apply list_lookup_middle. rewrite length_app. simpl. lia. }
  destruct Hfound as (idx & Hidx & Hr).
  unfold Pool.has_repository, Pool.repository.
  change (lower <$> Pool.repo_name r) with (Pool.repository_name r).
  rewrite Hidx, Hr. split; [|done]. by apply bool_decide_eq_true.
Qed.


(** X5: [has_repository] and [repository] agree on what is unknown and
    both ignore the case of the name: [repository] raises [ValueError]
    exactly for the names that [has_repository] rejects, and lower-casing
    the name beforehand changes neither answer. *)
Theorem repository_names_ignore_case self name :
  (Pool.has_repository self name = false
   ↔ ∃ msg, Pool.repository self name = inl (ValueError msg))
  ∧ Pool.has_repository self (lower <$> name) = Pool.has_repository self name
  ∧ Pool.repository self (lower <$> name) = Pool.repository self name.
Proof.
  assert (Hlower : lower <$> (lower <$> name) = lower <$> name).
  { destruct name; simpl; [|done]. by rewrite lower_idempotent. }
  unfold Pool.has_repository, Pool.repository. rewrite Hlower.
  split; [|done].
  destruct (Pool._lookup self !! (lower <$> name)) as [idx|] eqn:Hidx.
  - split.
    + intros Hhas. apply bool_decide_eq_false in Hhas. by destruct Hhas.
    + intros [msg Hmsg]. by destruct (Pool._repositories self !! idx).
  - split; [by eexists|]. intros _. apply bool_decide_eq_false. by intros [? ?].
Qed.

(** X6: [remove_repository] with a name that resolves to a client takes
    exactly that client out of the list, in place, and leaves the lookup
    table as it was; with a name the pool does not know it changes
    nothing. *)
Theorem remove_repository_takes_named_client self name :
  (∀ r, Pool.repository self name = inr r →
     ∃ before after self',
       Pool._repositories self = before ++ r :: after
       ∧ Pool._lookup self !! (lower <$> name) = Some (length before)
       ∧ Pool.remove_repository self name = inr self'
       ∧ Pool._repositories self' = before ++ after
       ∧ Pool._lookup self' = Pool._lookup self
       ∧ Pool._secondary_start_idx self' = Pool._secondary_start_idx self)
  ∧ (Pool.has_repository self name = false →
     Pool.remove_repository self name = inr self).
Proof.
  split.
  - intros r Hres. unfold Pool.repository in Hres. unfold Pool.remove_repository.
    destruct (Pool._lookup self !! (lower <$> name)) as [idx|] eqn:Hidx; [|done].
    destruct (Pool._repositories self !! idx) as [r1|] eqn:Hr1; [|done].
    injection Hres as ->.
    pose proof (lookup_lt_Some _ _ _ Hr1) as Hlt.
    exists (take idx (Pool._repositories self)),
           (drop (S idx) (Pool._repositories self)).
    unfold list_del. destruct (Nat.ltb_spec idx (length (Pool._repositories self)));
      [|lia].
    eexists. split; [by rewrite take_drop_middle|].
    split; [by rewrite length_take_le by lia|]. done.
  - unfold Pool.has_repository, Pool.remove_repository. intros Hhas.
    apply bool_decide_eq_false in Hhas.
    destruct (Pool._lookup self !! (lower <$> name)); [|done].
    by destruct Hhas.
Qed.

End pool_registry.

Section pool_lookups.
Context `{Semver}.
Implicit Types (self : Pool.Pool) (repo : Pool.Repository).

(** X7: [Pool.package] never touches the pool's repositories: when it
    returns, the lookup table, the repository list, the flags and the
    boundary are as before, and the list of returned packages has grown
    by at most the package just returned. *)
Theorem package_keeps_repositories self name version project extras hint
    asked found self' :
  Pool.package self name version project extras hint = (asked, inr (found, self')) →
  Pool._lookup self' = Pool._lookup self
  ∧ Pool._repositories self' = Pool._repositories self
  ∧ Pool._secondary_start_idx self' = Pool._secondary_start_idx self
  ∧ Pool.has_default self' = Pool.has_default self
  ∧ Pool.has_primary_repositories self' = Pool.has_primary_repositories self
  ∧ Pool._ignore_repository_names self' = Pool._ignore_repository_names self
  ∧ (Pool._packages self' = Pool._packages self
     ∨ ∃ package, found = Some package
                  ∧ Pool._packages self' = Pool._packages self ++ [package]).
Proof.
  destruct self as [lookup repos d hp b parent ignore pkgs].
  cbn [Pool.package].
  set (self := Pool.mkPool lookup repos d hp b parent ignore pkgs).
  assert (Hwith : ∀ parent', 
    Pool._lookup (Pool.with_parent self parent') = Pool._lookup self
    ∧ Pool._repositories (Pool.with_parent self parent') = Pool._repositories self
    ∧ Pool._secondary_start_idx (Pool.with_parent self parent')
      = Pool._secondary_start_idx self
    ∧ Pool.has_default (Pool.with_parent self parent') = Pool.has_default self
    ∧ Pool.has_primary_repositories (Pool.with_parent self parent')
      = Pool.has_primary_repositories self
    ∧ Pool._ignore_repository_names (Pool.with_parent self parent')
      = Pool._ignore_repository_names self
    ∧ (Pool._packages (Pool.with_parent self parent') = Pool._packages self
       ∨ ∃ package, found = Some package
           ∧ Pool._packages (Pool.with_parent self parent')
             = Pool._packages self ++ [package])).
  { intros parent'. repeat split; by left. }
  destruct (negb (is_ManagedProject project)); [done|].
  destruct (_ && _ && _).
  { destruct parent as [parent|]; [|done].
    destruct (Pool.package parent _ _ _ _ _) as [asked' [e|[p parent']]]; [done|].
    intros [= _ <- <-]. apply Hwith. }
  destruct (_ && _).
  { destruct (Pool.repository self _) as [e|repo]; [done|].
    destruct (Pool.repo_package repo _ _ _ _) as [[]|p]; try done.
    - destruct parent as [parent|]; [|done].
      destruct (Pool.package parent _ _ _ _ _) as [asked' [e|[p parent']]]; [done|].
      intros [= _ <- <-]. apply Hwith.
    - intros [= _ <- <-]. repeat split; by left. }
  destruct (Pool.scan_package _ _ _ _ _) as [asked0 [e|[p|]]]; [done| |].
  - intros [= _ <- <-]. repeat split. right. by exists p.
  - destruct parent as [parent|]; [|done].
    destruct (Pool.package parent _ _ _ _ _) as [asked' [e|[p parent']]]; [done|].
    intros [= _ <- <-]. apply Hwith.
Qed.

(** X8: without a repository hint [Pool.package] tries every client of
    the list in order, secondaries included. The first client that
    returns a package wins: the clients before it, which raised
    [PackageNotFound] or returned nothing, were asked, no later client
    is, and the package is appended to the pool's list of returned
    packages. When no client holds the package and there is no parent
    pool, every client was asked and the call raises [PackageNotFound]. *)
Theorem package_scans_all_repositories self name version project extras :
  is_ManagedProject project = true →
  (∀ before repo after package,
     Pool._repositories self = before ++ repo :: after →
     (∀ r, r ∈ before → passes r name version project extras) →
     Pool.repo_package repo name version project extras = inr (Some package) →
     Pool.package self name version project extras None
     = (before ++ [repo], inr (Some package, Pool.record_package self package)))
  ∧ ((∀ r, r ∈ Pool._repositories self → passes r name version project extras) →
     Pool._parent self = None →
     Pool.package self name version project extras None
     = (Pool._repositories self,
        inl (PackageNotFound
               ("Package " +:+ name +:+ " (" +:+ version +:+ ") not found.")))).
Proof.
  destruct self as [lookup repos d hp b parent ignore pkgs].
  intros Hproject. cbn [Pool.package Pool._repositories Pool._parent].
  rewrite Hproject. cbn [negb fmap option_fmap option_map is_not_None andb].
  split.
  - intros before repo after package -> Hbefore Hrepo.
    by rewrite (scan_package_hit _ _ _ _ _ _ _ _ Hbefore Hrepo).
  - intros Hall ->. by rewrite (scan_package_miss _ _ _ _ _ Hall).
Qed.

(** X9: a hint that names no repository of the pool, with name matching
    in force, is a configuration error when the pool has no parent (no
    client is asked); with a parent the whole call is the parent's, with
    the same hint. *)
Theorem package_with_unknown_hint self name version project extras hint :
  is_ManagedProject project = true →
  Pool._ignore_repository_names self = false →
  Pool.has_repository self (Some hint) = false →
  match Pool._parent self with
  | None =>
      Pool.package self name version project extras (Some hint)
      = ([], inl (ValueError
                    ("Repository " +:+ quoted (lower hint) +:+ " does not exist.")))
  | Some parent =>
      Pool.package self name version project extras (Some hint)
      = (fst (Pool.package parent name version project extras (Some (lower hint))),
         match snd (Pool.package parent name version project extras
                      (Some (lower hint))) with
         | inl e => inl e
         | inr (found, parent') => inr (found, Pool.with_parent self parent')
         end)
  end.
Proof.
  destruct self as [lookup repos d hp b parent ignore pkgs].
  intros Hproject Hignore Hunknown. simpl in Hignore. subst ignore.
  unfold Pool.has_repository in Hunknown. simpl in Hunknown.
  apply bool_decide_eq_false in Hunknown.
  assert (Hnone : lookup !! Some (lower hint) = None).
  { destruct (lookup !! Some (lower hint)) eqn:Hl; [|done]. by destruct Hunknown. }
  cbn [Pool.package Pool._parent]. rewrite Hproject.
  cbn [negb fmap option_fmap option_map is_not_None andb].
  rewrite bool_decide_eq_true_2 by done. cbn [andb negb].
  destruct parent as [parent|]; [|done].
  by destruct (Pool.package parent _ _ _ _ _) as [asked r].
Qed.

(** X10: for a dependency that names a source repository, with name
    matching in force, [Pool.find_packages] asks the named client alone
    and returns whatever it answers, an empty list or an error included,
    without falling back to other clients or to the parent. A name the
    pool does not know is a configuration error without a parent, and
    the parent's call with one. *)
Theorem find_packages_with_source_name self dependency source :
  dep_source_name dependency = Some source →
  Pool._ignore_repository_names self = false →
  (∀ repo, Pool.repository self (Some source) = inr repo →
     Pool.find_packages self dependency
     = ([repo], Pool.repo_find_packages repo dependency))
  ∧ (Pool.has_repository self (Some source) = false →
     Pool.find_packages self dependency
     = match Pool._parent self with
       | Some parent => Pool.find_packages parent dependency
       | None =>
           ([], inl (ValueError
                       ("Repository " +:+ quoted (lower source)
                        +:+ " does not exist.")))
       end).
Proof.
  destruct self as [lookup repos d hp b parent ignore pkgs].
  intros Hsource Hignore. simpl in Hignore. subst ignore.
  cbn [Pool.find_packages Pool._parent]. rewrite Hsource.
  cbn [fmap option_fmap option_map is_not_None andb negb].
  split.
  - intros repo Hrepo.
    assert (Hknown : lookup !! Some (lower source) ≠ None).
    { unfold Pool.repository in Hrepo. simpl in Hrepo.
      by destruct (lookup !! Some (lower source)). }
    assert (Hagain :
      Pool.repository (Pool.mkPool lookup repos d hp b parent false pkgs)
        (Some (lower source)) = inr repo).
    { unfold Pool.repository in *. simpl in *. by rewrite lower_idempotent. }
    rewrite bool_decide_eq_false_2 by done. cbn [andb]. by rewrite Hagain.
  - intros Hunknown. unfold Pool.has_repository in Hunknown. simpl in Hunknown.
    apply bool_decide_eq_false in Hunknown.
    assert (Hnone : lookup !! Some (lower source) = None).
    { destruct (lookup !! Some (lower source)) eqn:Hl; [|done]. by destruct Hunknown. }
    rewrite bool_decide_eq_true_2 by done. cbn [andb]. by destruct parent.
Qed.

End pool_lookups.

(** * Further properties of index pages *)

Section strings.
Implicit Types (s t : string) (f : ascii → bool).

Lemma string_forall_app f s t :
  string_forall f (s +:+ t) = string_forall f s && string_forall f t.
Proof.
  induction s as [|c s IH]; [done|].
  change (String c s +:+ t) with (String c (s +:+ t)).
  cbn [string_forall]. by rewrite IH, andb_assoc.
Qed.

Lemma string_app_assoc s t u : (s +:+ t) +:+ u = s +:+ (t +:+ u).
Proof.
  induction s as [|c s IH]; [done|].
  change (String c ((s +:+ t) +:+ u) = String c (s +:+ (t +:+ u))). by f_equal.
Qed.

Lemma string_app_nil_r s : s +:+ "" = s.
Proof.
  induction s as [|c s IH]; [done|].
  change (String c (s +:+ "") = String c s). by f_equal.
Qed.

(** [endswith] with a one-character suffix looks at the last character. *)
Lemma endswith_last_ascii s c :
  endswith s (String c "") = bool_decide (last_ascii s = Some c).
Proof.
  unfold endswith. cbn [String.length].
  induction s as [|a s IH]; [done|].
  destruct s as [|b s].
  - simpl. apply bool_decide_ext. split; congruence.
  - cbn [String.length last_ascii] in *.
    replace (S (S (String.length s)) - 1) with (S (S (String.length s) - 1))
      by lia.
    cbn [substring]. exact IH.
Qed.

Lemma last_ascii_app_char s c : last_ascii (s +:+ String c "") = Some c.
Proof.
  induction s as [|a s IH]; [done|].
  change (String a s +:+ String c "") with (String a (s +:+ String c "")).
  destruct (s +:+ String c "") as [|b t] eqn:Hs; [by destruct s|].
  exact IH.
Qed.

End strings.

Lemma length_omap_le {A B} (f : A → option B) (l : list A) :
  length (omap f l) ≤ length l.
Proof.
  induction l as [|a l IH]; [done|].
  change (omap f (a :: l))
    with (match f a with Some y => y :: omap f l | None => omap f l end).
  destruct (f a); simpl; lia.
Qed.

Section page_links.
Context `{Semver} `{IndexLib}.
Implicit Types (page : Page.Page) (link : Link) (v : Version).

Lemma percent_2x_is_safe c :
  (16 <=? nat_of_ascii c) = true →
  string_forall Page.clean_safe (Page.percent_2x c) = true.
Proof.
  destruct c as [[] [] [] [] [] [] [] []]; vm_compute; intros Hc;
    first [reflexivity | discriminate Hc].
Qed.

(** X11: [clean_link] does not over-quote: a URL made of characters of
    the safe set only, [%] among them, comes back unchanged. On a URL
    with no character below code 16 its result holds safe characters
    only, so that cleaning it a second time changes nothing. *)
Theorem clean_link_encodes_once (url : string) :
  (string_forall Page.clean_safe url = true → Page.clean_link url = url)
  ∧ (string_forall (λ c, 16 <=? nat_of_ascii c) url = true →
     string_forall Page.clean_safe (Page.clean_link url) = true
     ∧ Page.clean_link (Page.clean_link url) = Page.clean_link url).
Proof.
  assert (Hkeep : ∀ u, string_forall Page.clean_safe u = true →
                       Page.clean_link u = u).
  { induction u as [|c u IH]; [done|]. cbn [string_forall Page.clean_link].
    intros [Hc Hu]%andb_prop. rewrite Hc. by rewrite IH. }
  split; [apply Hkeep|]. intros Hurl.
  assert (Hsafe : string_forall Page.clean_safe (Page.clean_link url) = true).
  { induction url as [|c url IH]; [done|].
    cbn [string_forall] in Hurl. apply andb_prop in Hurl as [Hc Hu].
    cbn [Page.clean_link]. destruct (Page.clean_safe c) eqn:Hs.
    - cbn [string_forall]. by rewrite Hs, IH.
    - by rewrite string_forall_app, percent_2x_is_safe, IH. }
  split; [done|]. by apply Hkeep.
Qed.

(** X12: every link of a page has one of the supported archive
    extensions and comes from an anchor with a non-empty [href], its URL
    being the cleaned join of the page's base URL and that [href]; a
    page has no more links than anchors. *)
Theorem links_come_from_supported_anchors page :
  (∀ link, link ∈ Page.links page →
     link_ext (link_url link) ∈ Page.SUPPORTED_FORMATS
     ∧ ∃ anchor href,
         anchor ∈ parsed_anchors (Page._content page) (Page._encoding page)
         ∧ anchor_href anchor = Some href
         ∧ href ≠ ""
         ∧ link_url link = Page.clean_link (urljoin (Page._url page) href))
  ∧ length (Page.links page)
    ≤ length (parsed_anchors (Page._content page) (Page._encoding page)).
Proof.
  unfold Page.links. split.
  - intros link Hlink. apply list_elem_of_omap in Hlink as (anchor & Hanchor & Hlink).
    destruct (anchor_href anchor) as [href|] eqn:Hhref; [|done].
    case_bool_decide as Hempty; [done|].
    case_bool_decide as Hext; [|done].
    injection Hlink as <-. simpl. split; [done|]. by exists anchor, href.
  - apply length_omap_le.
Qed.

(** X13: [links_for_version] returns links of the page only, each of
    the version asked for, and it returns at least one exactly for the
    versions that [versions] yields. *)
Theorem links_for_version_of_listed_versions page v :
  (∀ link, link ∈ Page.links_for_version page v
           ↔ link ∈ Page.links page ∧ Page.link_version link = Some v)
  ∧ (v ∈ Page.versions page ↔ Page.links_for_version page v ≠ []).
Proof.
  assert (Hin : ∀ link, link ∈ Page.links_for_version page v
                        ↔ link ∈ Page.links page ∧ Page.link_version link = Some v).
  { intros link. unfold Page.links_for_version. rewrite list_elem_of_filter. tauto. }
  split; [done|]. unfold Page.versions.
  rewrite versions_loop_elem_of, list_elem_of_omap. split.
  - intros (_ & link & Hlink & Hv) Hnil.
    assert (Hl : link ∈ Page.links_for_version page v) by (by apply Hin).
    rewrite Hnil in Hl. by apply not_elem_of_nil in Hl.
  - intros Hne. split; [apply not_elem_of_nil|].
    destruct (Page.links_for_version page v) as [|link links] eqn:Hlinks; [done|].
    exists link. apply (proj1 (Hin link)). apply list_elem_of_here.
Qed.

End page_links.

Section version_regex.
Implicit Types (s info ver : string).

Lemma take_while_split (f : ascii → bool) s :
  ∃ rest, s = Page.take_while f s +:+ rest
    ∧ string_forall f (Page.take_while f s) = true
    ∧ match rest with String c _ => f c = false | EmptyString => True end.
Proof.
  induction s as [|c s (rest & Hs & Hall & Hrest)]; [by exists ""|].
  cbn [Page.take_while]. destruct (f c) eqn:Hc.
  - exists rest. cbn [string_forall]. rewrite Hc, Hall. split; [|done].
    change (String c s = String c (Page.take_while f s +:+ rest)). by f_equal.
  - by exists (String c s).
Qed.

Lemma digit_is_version_char c : Page.is_digit c = true → Page.version_char c = true.
Proof.
  unfold Page.version_char, Page.is_alnum, Page.is_digit. by intros ->.
Qed.

Lemma version_after_name_sound s ver :
  Page.version_after_name s = Some ver →
  ∃ pre rest,
    s = pre +:+ (String "-" (ver +:+ rest))
    ∧ string_forall Page.name_char pre = true
    ∧ Page.starts_with_digit ver = true
    ∧ string_forall Page.version_char ver = true
    ∧ match rest with String c _ => Page.version_char c = false | EmptyString => True end.
Proof.
  induction s as [|c s IH]; [done|]. cbn [Page.version_after_name].
  destruct (bool_decide (c = "-"%char) && Page.starts_with_digit s) eqn:Hhere.
  - apply andb_prop in Hhere as [Hc Hdigit]. apply bool_decide_eq_true in Hc as ->.
    intros [= <-].
    destruct (take_while_split Page.version_char s) as (rest & Hs & Hall & Hrest).
    exists "", rest. split; [by rewrite <- Hs|]. split; [done|]. split; [|done].
    destruct s as [|d s]; [done|]. simpl in Hdigit. cbn [Page.take_while].
    by rewrite (digit_is_version_char _ Hdigit).
  - destruct (Page.name_char c) eqn:Hname; [|done]. intros Hver.
    destruct (IH Hver) as (pre & rest & -> & Hpre & Hrest).
    exists (String c pre), rest. split; [done|]. cbn [string_forall].
    by rewrite Hname, Hpre.
Qed.

Lemma version_after_name_complete pre tail :
  string_forall Page.name_char pre = true →
  Page.starts_with_digit tail = true →
  is_Some (Page.version_after_name (pre +:+ String "-" tail)).
Proof.
  intros Hpre Htail. induction pre as [|c pre IH].
  - change ("" +:+ String "-" tail) with (String "-" tail).
    unfold Page.version_after_name.
    rewrite (bool_decide_eq_true_2 ("-"%char = "-"%char) eq_refl).
    destruct tail; [done|]. by rewrite Htail.
  - cbn [string_forall] in Hpre. apply andb_prop in Hpre as [Hc Hpre].
    change (String c pre +:+ String "-" tail)
      with (String c (pre +:+ String "-" tail)).
    cbn [Page.version_after_name]. destruct (_ && _); [done|].
    rewrite Hc. by apply IH.
Qed.

(** X14: [VERSION_REGEX] finds a version in a file stem exactly when the
    stem is a non-empty run of name characters, a hyphen, and something
    that starts with a digit. The version it gives starts with a digit,
    follows the first such hyphen, holds version characters only, and
    runs up to the end of the stem or the first character that is not a
    version character. *)
Theorem version_regex_finds_digit_led_version info :
  (∀ ver, Page.VERSION_REGEX_group2 info = Some ver →
     ∃ name rest,
       info = name +:+ (String "-" (ver +:+ rest))
       ∧ name ≠ ""
       ∧ string_forall Page.name_char name = true
       ∧ Page.starts_with_digit ver = true
       ∧ string_forall Page.version_char ver = true
       ∧ match rest with
         | String c _ => Page.version_char c = false
         | EmptyString => True
         end)
  ∧ (is_Some (Page.VERSION_REGEX_group2 info)
     ↔ ∃ name tail,
         info = name +:+ String "-" tail
         ∧ name ≠ ""
         ∧ string_forall Page.name_char name = true
         ∧ Page.starts_with_digit tail = true).
Proof.
  assert (Hsound : ∀ ver, Page.VERSION_REGEX_group2 info = Some ver →
    ∃ name rest,
      info = name +:+ (String "-" (ver +:+ rest))
      ∧ name ≠ ""
      ∧ string_forall Page.name_char name = true
      ∧ Page.starts_with_digit ver = true
      ∧ string_forall Page.version_char ver = true
      ∧ match rest with
        | String c _ => Page.version_char c = false
        | EmptyString => True
        end).
  { intros ver. unfold Page.VERSION_REGEX_group2.
    destruct info as [|c info]; [done|].
    destruct (Page.name_char c) eqn:Hc; [|done]. intros Hver.
    destruct (version_after_name_sound _ _ Hver) as (pre & rest & -> & Hpre & Hrest).
    exists (String c pre), rest. split; [done|]. split; [done|].
    cbn [string_forall]. by rewrite Hc, Hpre. }
  split; [done|]. split.
  - intros [ver Hver]. destruct (Hsound ver Hver)
      as (name & rest & -> & Hname & Hchars & Hdigit & _).
    exists name, (ver +:+ rest). repeat split; try done.
    by destruct ver.
  - intros (name & tail & -> & Hname & Hchars & Hdigit).
    destruct name as [|c name]; [done|]. cbn [string_forall] in Hchars.
    apply andb_prop in Hchars as [Hc Hchars].
    change (String c name +:+ String "-" tail)
      with (String c (name +:+ String "-" tail)).
    unfold Page.VERSION_REGEX_group2. rewrite Hc.
    by apply version_after_name_complete.
Qed.

End version_regex.

Section page_init.
Context `{Semver} `{IndexLib}.

(** X15: the base URL of a page always ends with a slash: a URL that
    already ends with one is kept, any other gets one appended. *)
Theorem page_base_url_ends_with_slash url content headers :
  endswith (Page._url (Page.init url content headers)) "/" = true
  ∧ (endswith url "/" = true → Page._url (Page.init url content headers) = url)
  ∧ (endswith url "/" = false →
     Page._url (Page.init url content headers) = url +:+ "/").
Proof.
  unfold Page.init. cbn [Page._url].
  destruct (endswith url "/") eqn:Hends; [done|].
  split; [|done]. rewrite endswith_last_ascii, last_ascii_app_char.
  by apply bool_decide_eq_true.
Qed.

End page_init.

(** * Further properties of the legacy client *)

Lemma rstrip_slash_spec (s : string) :
  last_ascii (LegacyRepository.rstrip_slash s) ≠ Some "/"%char
  ∧ ∃ k, s = LegacyRepository.rstrip_slash s +:+ slashes k.
Proof.
  induction s as [|c s [Hlast [k Hk]]]; [split; [done | by exists 0]|].
  cbn [LegacyRepository.rstrip_slash].
  destruct (bool_decide (c = "/"%char) && bool_decide (LegacyRepository.rstrip_slash s = ""))
    eqn:Hstrip.
  - apply andb_prop in Hstrip as [Hc Hr].
    apply bool_decide_eq_true in Hc as ->. apply bool_decide_eq_true in Hr.
    split; [done|]. exists (S k). rewrite Hr in Hk.
    change (String "/" s = String "/" (slashes k)). by f_equal.
  - split.
    + cbn [last_ascii]. destruct (LegacyRepository.rstrip_slash s) eqn:Hr; [|done].
      intros [= ->]. by rewrite !bool_decide_eq_true_2 in Hstrip.
    + exists k. change (String c s = String c (LegacyRepository.rstrip_slash s +:+ slashes k)).
      by f_equal.
Qed.

Lemma list_filter_NoDup {A} (f : A → bool) (l : list A) :
  NoDup l → NoDup (List.filter f l).
Proof. rewrite !NoDup_ListNoDup. apply List.NoDup_filter. Qed.

Section legacy_calls.
Context `{Semver} `{IndexLib}.
Implicit Types (self : LegacyRepository.LegacyRepository) (v : Version).

(** X16: a legacy client cannot be named [pypi]; any other name is
    accepted, and the base URL it keeps is the given URL without its
    trailing slashes, so it never ends with a slash; its cache starts
    empty. *)
Theorem legacy_init_strips_trailing_slashes (name url : string) :
  (name = "pypi" →
   LegacyRepository.init name url
   = inl (ValueError "The name [pypi] is reserved for repositories"))
  ∧ (name ≠ "pypi" →
     ∃ self, LegacyRepository.init name url = inr self
       ∧ LegacyRepository._name self = name
       ∧ endswith (LegacyRepository._url self) "/" = false
       ∧ (∃ k, url = LegacyRepository._url self +:+ slashes k)
       ∧ LegacyRepository._matches self = ∅).
Proof.
  unfold LegacyRepository.init. split.
  - intros ->. by rewrite bool_decide_eq_true_2.
  - intros Hname. rewrite bool_decide_eq_false_2 by done.
    eexists. split; [done|]. cbn.
    destruct (rstrip_slash_spec url) as [Hlast Hk].
    split; [done|]. split; [|done].
    rewrite endswith_last_ascii. by apply bool_decide_eq_false.
Qed.

Lemma find_packages_shape self session_get now dependency packages :
  fst (LegacyRepository.find_packages self session_get now dependency) = inr packages →
  ∃ versions, packages = LegacyRepository.make_package self dependency <$> versions.
Proof.
  destruct (LegacyRepository.normalize_constraint (dep_constraint dependency))
    as [e|constraint] eqn:Hc.
  { unfold LegacyRepository.find_packages. by rewrite Hc. }
  destruct (LegacyRepository.store_has now (LegacyRepository._matches self)
              (LegacyRepository.cache_key dependency constraint)) eqn:Hhas.
  - destruct (LegacyRepository.store_get now (LegacyRepository._matches self)
                (LegacyRepository.cache_key dependency constraint))
      as [versions|] eqn:Hget.
    + rewrite (find_packages_on_hit _ _ _ _ _ _ Hc Hget). intros [= <-]. by eexists.
    + unfold LegacyRepository.find_packages. by rewrite Hc, Hhas, Hget.
  - destruct (fst (LegacyRepository._get self session_get
                ("/" +:+ LegacyRepository.replace_dots (dep_name dependency) +:+ "/")))
      as [e|[page|]] eqn:Hget.
    + unfold LegacyRepository.find_packages. rewrite Hc, Hhas.
      destruct (LegacyRepository._get _ _ _) as [got self1]. simpl in Hget.
      by subst got.
    + destruct (find_packages_on_miss _ _ _ _ _ _ Hc Hhas Hget) as [-> _].
      intros [= <-]. by eexists.
    + unfold LegacyRepository.find_packages. rewrite Hc, Hhas.
      destruct (LegacyRepository._get _ _ _) as [got self1]. simpl in Hget.
      subst got. simpl. intros [= <-]. by exists [].
Qed.

(** X17: every package that [find_packages] returns, from the cache or
    from a page, carries the dependency's name, the source type
    [legacy], this client's name as source reference and this client's
    base URL as source URL. *)
Theorem found_packages_carry_provenance self session_get now dependency packages :
  fst (LegacyRepository.find_packages self session_get now dependency) = inr packages →
  ∀ package, package ∈ packages →
    pkg_name package = dep_name dependency
    ∧ pkg_source_type package = Some "legacy"
    ∧ pkg_source_reference package = Some (LegacyRepository._name self)
    ∧ pkg_source_url package = Some (LegacyRepository._url self).
Proof.
  intros Hfind package Hin.
  destruct (find_packages_shape _ _ _ _ _ Hfind) as [versions ->].
  by apply list_elem_of_fmap in Hin as (v & -> & _).
Qed.

(** X18: on a hit of the matched-versions cache [find_packages] does not
    consult the network: whatever the index would answer, the call
    returns the same packages, without raising, and leaves the same
    state, the cache as it was. *)
Theorem cache_hit_skips_network self session_get session_get' now dependency constraint :
  LegacyRepository.normalize_constraint (dep_constraint dependency) = inr constraint →
  LegacyRepository.store_has now (LegacyRepository._matches self)
    (LegacyRepository.cache_key dependency constraint) = true →
  LegacyRepository.find_packages self session_get now dependency
  = LegacyRepository.find_packages self session_get' now dependency
  ∧ (∃ packages,
       fst (LegacyRepository.find_packages self session_get now dependency)
       = inr packages)
  ∧ LegacyRepository._matches
      (snd (LegacyRepository.find_packages self session_get now dependency))
    = LegacyRepository._matches self.
Proof.
  intros Hc Hhas. unfold LegacyRepository.find_packages. rewrite Hc, Hhas.
  split; [done|].
  assert (Hget : ∃ versions,
    LegacyRepository.store_get now (LegacyRepository._matches self)
      (LegacyRepository.cache_key dependency constraint) = Some versions).
  { unfold LegacyRepository.store_has, LegacyRepository.store_get in *.
    destruct (_ !! _) as [[expires value]|]; [|done]. rewrite Hhas. by eexists. }
  destruct Hget as [versions ->].
  cbn [LegacyRepository.build_packages].
  by repeat (destruct (_ || _); simpl); (split; [eexists|]).
Qed.

(** X19: [find_packages] never changes the client's name or base URL,
    a call that raises leaves the cache as it was, and any call leaves
    every cache entry other than the one of its own key untouched. *)
Theorem find_packages_touches_own_key_only self session_get now dependency :
  let out := LegacyRepository.find_packages self session_get now dependency in
  same_identity self (snd out)
  ∧ (∀ e, fst out = inl e →
       LegacyRepository._matches (snd out) = LegacyRepository._matches self)
  ∧ (∀ constraint key,
       LegacyRepository.normalize_constraint (dep_constraint dependency)
       = inr constraint →
       key ≠ LegacyRepository.cache_key dependency constraint →
       LegacyRepository._matches (snd out) !! key
       = LegacyRepository._matches self !! key).
Proof.
  intros out. subst out.
  destruct (LegacyRepository.normalize_constraint (dep_constraint dependency))
    as [e|constraint] eqn:Hc.
  { unfold LegacyRepository.find_packages. rewrite Hc. by repeat split. }
  destruct (LegacyRepository.store_has now (LegacyRepository._matches self)
              (LegacyRepository.cache_key dependency constraint)) eqn:Hhas.
  { unfold LegacyRepository.find_packages. rewrite Hc, Hhas.
    destruct (LegacyRepository.store_get _ _ _); [|by repeat split].
    cbn [LegacyRepository.build_packages].
    by repeat (destruct (_ || _); simpl); repeat split. }
  destruct (fst (LegacyRepository._get self session_get
              ("/" +:+ LegacyRepository.replace_dots (dep_name dependency) +:+ "/")))
    as [e|[page|]] eqn:Hget.
  - destruct (get_keeps_state self session_get
                ("/" +:+ LegacyRepository.replace_dots (dep_name dependency) +:+ "/"))
      as [Hid Hmatches].
    unfold LegacyRepository.find_packages. rewrite Hc, Hhas.
    destruct (LegacyRepository._get _ _ _) as [got self1]. simpl in *.
    subst got. simpl. split; [done|]. split; [done|]. intros. by rewrite Hmatches.
  - destruct (find_packages_on_miss _ _ _ _ _ _ Hc Hhas Hget)
      as (Hfind & Hid & Hcached).
    split; [done|]. split; [by rewrite Hfind|].
    intros c key [= <-] Hkey. rewrite Hcached.
    unfold LegacyRepository.store_put. by rewrite lookup_insert_ne.
  - destruct (get_keeps_state self session_get
                ("/" +:+ LegacyRepository.replace_dots (dep_name dependency) +:+ "/"))
      as [Hid Hmatches].
    unfold LegacyRepository.find_packages. rewrite Hc, Hhas.
    destruct (LegacyRepository._get _ _ _) as [got self1]. simpl in *.
    subst got. simpl. split; [done|]. split; [done|]. intros. by rewrite Hmatches.
Qed.

(** X20: on a cache miss with a page, [find_packages] returns no version
    twice, only versions that the page lists, and every version of the
    page that is stable and allowed by the constraint. *)
Theorem found_versions_are_distinct_and_complete
    self session_get now dependency constraint page packages :
  LegacyRepository.normalize_constraint (dep_constraint dependency) = inr constraint →
  LegacyRepository.store_has now (LegacyRepository._matches self)
    (LegacyRepository.cache_key dependency constraint) = false →
  fst (LegacyRepository._get self session_get
         ("/" +:+ LegacyRepository.replace_dots (dep_name dependency) +:+ "/"))
  = inr (Some page) →
  fst (LegacyRepository.find_packages self session_get now dependency) = inr packages →
  NoDup (pkg_version <$> packages)
  ∧ (∀ v, v ∈ pkg_version <$> packages → v ∈ Page.versions page)
  ∧ (∀ v, v ∈ Page.versions page → is_unstable v = false →
          allows constraint v = true → v ∈ pkg_version <$> packages).
Proof.
  intros Hc Hhas Hget Hfind.
  destruct (find_packages_on_miss _ _ _ _ _ _ Hc Hhas Hget) as [Hmiss _].
  rewrite Hmiss in Hfind. injection Hfind as <-.
  rewrite <- list_fmap_compose.
  rewrite (list_fmap_ext _ id _ (λ _ _ _, eq_refl)) by done.
  rewrite list_fmap_id.
  set (allow := LegacyRepository.allow_prereleases dependency constraint).
  set (versions := List.filter _ (Page.versions page)).
  set (ignored := List.filter (λ v, is_unstable v && negb allow && is_any constraint)
                    (Page.versions page)).
  assert (Hdistinct : NoDup (Page.versions page)) by apply versions_loop_NoDup.
  assert (Hprimary : ∀ v, v ∈ Page.versions page → is_unstable v = false →
                          allows constraint v = true → v ∈ versions).
  { intros v Hv Hstable Hallows. apply list_elem_of_In, filter_In.
    split; [by apply list_elem_of_In|]. by rewrite Hstable, Hallows. }
  destruct ((0 <? length versions) || negb (is_any constraint)) eqn:Hcond.
  - split; [by apply list_filter_NoDup|]. split; [|done].
    intros v Hv. apply list_elem_of_In, filter_In in Hv as [Hv _].
    by apply list_elem_of_In.
  - apply orb_false_elim in Hcond as [Hempty _].
    assert (versions = []) as Hnil.
    { destruct versions; [done|]. simpl in Hempty. done. }
    rewrite Hnil in *. simpl. split; [by apply list_filter_NoDup|]. split.
    + intros v Hv. apply list_elem_of_In, filter_In in Hv as [Hv _].
      by apply list_elem_of_In.
    + intros v Hv Hstable Hallows.
      destruct (not_elem_of_nil v (Hprimary v Hv Hstable Hallows)).
Qed.

(** X21: a cached entry is used for five time units only: a call made
    five units or more after the miss that wrote the entry goes to the
    index again, returning nothing for an absent page and the filtered
    versions of the page it gets otherwise. *)
Theorem expired_cache_entry_is_fetched_again
    self session_get session_get' now now' dependency constraint page :
  LegacyRepository.normalize_constraint (dep_constraint dependency) = inr constraint →
  LegacyRepository.store_has now (LegacyRepository._matches self)
    (LegacyRepository.cache_key dependency constraint) = false →
  fst (LegacyRepository._get self session_get
         ("/" +:+ LegacyRepository.replace_dots (dep_name dependency) +:+ "/"))
  = inr (Some page) →
  now + 5 ≤ now' →
  let first := snd (LegacyRepository.find_packages self session_get now dependency) in
  let endpoint := "/" +:+ LegacyRepository.replace_dots (dep_name dependency) +:+ "/" in
  LegacyRepository.store_has now' (LegacyRepository._matches first)
    (LegacyRepository.cache_key dependency constraint) = false
  ∧ (fst (LegacyRepository._get first session_get' endpoint) = inr None →
     fst (LegacyRepository.find_packages first session_get' now' dependency) = inr [])
  ∧ (∀ page',
       fst (LegacyRepository._get first session_get' endpoint) = inr (Some page') →
       ∀ v, v ∈ Page.versions page' → is_unstable v = false →
            allows constraint v = true →
            ∃ packages,
              fst (LegacyRepository.find_packages first session_get' now' dependency)
              = inr packages
              ∧ LegacyRepository.make_package self dependency v ∈ packages).
Proof.
  intros Hc Hhas Hget Hlate first endpoint.
  destruct (find_packages_on_miss _ _ _ _ _ _ Hc Hhas Hget) as (_ & Hid & Hcached).
  fold first in Hid, Hcached.
  assert (Hexpired :
    LegacyRepository.store_has now' (LegacyRepository._matches first)
      (LegacyRepository.cache_key dependency constraint) = false).
  { rewrite Hcached. unfold LegacyRepository.store_has, LegacyRepository.store_put.
    rewrite lookup_insert_eq. apply Nat.ltb_ge. lia. }
  split; [done|]. split.
  - intros Habsent. unfold LegacyRepository.find_packages. rewrite Hc, Hexpired.
    fold endpoint. destruct (LegacyRepository._get first _ _) as [got self1].
    simpl in Habsent. by subst got.
  - intros page' Hget' v Hv Hstable Hallows.
    destruct (find_packages_on_miss _ _ _ _ _ _ Hc Hexpired Hget') as [Hfind _].
    eexists. split; [exact Hfind|].
    rewrite (make_package_same_identity _ _ _ Hid).
    apply list_elem_of_fmap_2.
    assert (Hin : v ∈ List.filter
                    (λ v, (negb (is_unstable v)
                           || LegacyRepository.allow_prereleases dependency constraint)
                          && allows constraint v) (Page.versions page')).
    { apply list_elem_of_In, filter_In. split; [by apply list_elem_of_In|].
      by rewrite Hstable, Hallows. }
    destruct (_ || _); [done|]. apply elem_of_app. by left.
Qed.

(** X22: [find_links_for_package] returns only links that parse to the
    package's version and have a supported archive extension, and never
    touches the matched-versions cache. *)
Theorem found_links_match_package_version self session_get package :
  (∀ links,
     fst (LegacyRepository.find_links_for_package self session_get package)
     = inr links →
     ∀ link, link ∈ links →
       Page.link_version link = Some (pkg_version package)
       ∧ link_ext (link_url link) ∈ Page.SUPPORTED_FORMATS)
  ∧ LegacyRepository._matches
      (snd (LegacyRepository.find_links_for_package self session_get package))
    = LegacyRepository._matches self.
Proof.
  destruct (get_keeps_state self session_get
              ("/" +:+ LegacyRepository.replace_dots (pkg_name package) +:+ "/"))
    as [_ Hmatches].
  unfold LegacyRepository.find_links_for_package.
  destruct (LegacyRepository._get _ _ _) as [[e|[page|]] self1]; simpl in *;
    (split; [|done]); try done.
  - intros links [= <-] link Hlink. unfold Page.links_for_version in Hlink.
    apply list_elem_of_filter in Hlink as [Hversion Hlink]. split; [done|].
    unfold Page.links in Hlink.
    apply list_elem_of_omap in Hlink as (anchor & _ & Hlink).
    destruct (anchor_href anchor) as [href|]; [|done].
    case_bool_decide; [done|]. case_bool_decide as Hext; [|done].
    by injection Hlink as <-.
  - intros links [= <-] link Hlink. by apply not_elem_of_nil in Hlink.
Qed.

End legacy_calls.

(** * Release information and search *)

Section release_info.
Context `{Semver} `{IndexLib} `{ReleaseLib}.
Implicit Types (self : LegacyRepository.LegacyRepository) (page : Page.Page).

Lemma no_links_for_unlisted_version page (v : Version) :
  Page.links_for_version page v = [] ↔ v ∉ Page.versions page.
Proof.
  unfold Page.versions. rewrite versions_loop_elem_of, list_elem_of_omap.
  unfold Page.links_for_version. split.
  - intros Hnil (_ & link & Hlink & Hv).
    assert (Hin : link ∈ filter (λ link, Page.link_version link = Some v)
                           (Page.links page)) by (by apply list_elem_of_filter).
    rewrite Hnil in Hin. by apply not_elem_of_nil in Hin.
  - intros Hnot.
    destruct (filter _ (Page.links page)) as [|link links] eqn:Hlinks; [done|].
    destruct Hnot. split; [apply not_elem_of_nil|]. exists link.
    assert (Hin : link ∈ filter (λ link, Page.link_version link = Some v)
                           (Page.links page)) by (rewrite Hlinks; apply list_elem_of_here).
    apply list_elem_of_filter in Hin. tauto.
Qed.

Lemma sort_links_files (links : list Link) :
  snd (ReleaseInfo.sort_links links)
  = (λ link, (link_filename (link_url link), ReleaseInfo.file_hash link)) <$> links.
Proof.
  unfold ReleaseInfo.sort_links.
  enough (Hgen : ∀ wheels sdists files,
    snd (foldl (λ '(wheels, sdists, files) link,
                  let '(wheels, sdists) :=
                    if link_is_wheel (link_url link) then
                      (wheels ++ [link_url link], sdists)
                    else if existsb (endswith (link_filename (link_url link)))
                                    ReleaseInfo.sdist_suffixes
                    then (wheels, sdists ++ [link_url link])
                    else (wheels, sdists) in
                  (wheels, sdists,
                   files ++ [(link_filename (link_url link), ReleaseInfo.file_hash link)]))
               (wheels, sdists, files) links)
    = files ++ ((λ link, (link_filename (link_url link), ReleaseInfo.file_hash link))
                <$> links)) by apply (Hgen [] [] []).
  induction links as [|link links IH]; intros wheels sdists files.
  - simpl. by rewrite app_nil_r.
  - cbn [foldl]. destruct (link_is_wheel _); [|destruct (existsb _ _)];
      rewrite IH; by rewrite <- app_assoc.
Qed.

(** X23: [_get_release_info] raises [PackageNotFound] when the index has
    no page for the package and when the page has no link of the version
    asked for. When it returns, the page lists that version and the
    result carries the name and version asked for and one file record
    per link of that version, in page order, at least one. *)
Theorem release_info_needs_page_and_link self session_get name version project :
  let endpoint :=
    "/" +:+ LegacyRepository.replace_dots (canonicalize_name name) +:+ "/" in
  let answer := ReleaseInfo._get_release_info self session_get name version project in
  (fst (LegacyRepository._get self session_get endpoint) = inr None →
   fst answer = inl (PackageNotFound ("No package named " +:+ quoted name)))
  ∧ (∀ page parsed,
       fst (LegacyRepository._get self session_get endpoint) = inr (Some page) →
       Version_parse version = Some parsed →
       parsed ∉ Page.versions page →
       fst answer
       = inl (PackageNotFound
                ("No valid distribution links found for package: "
                 +:+ quoted name +:+ " version: " +:+ quoted version)))
  ∧ (∀ info,
       fst answer = inr info →
       info_name info = name
       ∧ info_version info = version
       ∧ info_files info ≠ []
       ∧ ∃ page parsed,
           fst (LegacyRepository._get self session_get endpoint) = inr (Some page)
           ∧ Version_parse version = Some parsed
           ∧ parsed ∈ Page.versions page
           ∧ info_files info
             = (λ link, (link_filename (link_url link), ReleaseInfo.file_hash link))
               <$> Page.links_for_version page parsed).
Proof.
  intros endpoint answer. subst answer. unfold ReleaseInfo._get_release_info.
  fold endpoint.
  destruct (LegacyRepository._get self session_get endpoint) as [[e|[page|]] self1];
    simpl; (split; [|split]); try done.
  - intros page' parsed [= <-] Hparsed Hnot. rewrite Hparsed.
    apply no_links_for_unlisted_version in Hnot. rewrite Hnot.
    by rewrite bool_decide_eq_true_2.
  - intros info. destruct (Version_parse version) as [parsed|] eqn:Hparsed; [|done].
    case_bool_decide as Hlinks; [done|].
    pose proof (sort_links_files (Page.links_for_version page parsed)) as Hfiles.
    destruct (ReleaseInfo.sort_links _) as [[wheels sdists] files].
    simpl in Hfiles.
    destruct (_get_info_from_urls wheels sdists project) as [e|[[summary dist] python]];
      [done|].
    simpl. intros [= <-]. simpl. split; [done|]. split; [done|]. split.
    + rewrite Hfiles. by destruct (Page.links_for_version page parsed).
    + exists page, parsed. split; [done|]. split; [done|]. split; [|done].
      destruct (decide (parsed ∈ Page.versions page)) as [Hin|Hnot]; [done|].
      by apply no_links_for_unlisted_version in Hnot.
Qed.

End release_info.

Section pool_search.
Context `{Semver}.
Variable is_LegacyRepository : Pool.Repository → bool.
Variable repo_search : Pool.Repository → string → exn + list Package.
Implicit Types (self : Pool.Pool) (repos : list Pool.Repository).

Lemma Pool_parent_ind (P : Pool.Pool → Prop) :
  (∀ l r d hp b i pk, P (Pool.mkPool l r d hp b None i pk)) →
  (∀ l r d hp b parent i pk, P parent → P (Pool.mkPool l r d hp b (Some parent) i pk)) →
  ∀ self, P self.
Proof.
  intros Hroot Hchild. fix IH 1.
  intros [l r d hp b [parent|] i pk]; [apply Hchild, IH | apply Hroot].
Qed.

Lemma scan_search_asks_no_legacy repos query results r :
  r ∈ fst (PoolSearch.scan_search is_LegacyRepository repo_search repos query results) →
  r ∈ repos ∧ is_LegacyRepository r = false.
Proof.
  revert results. induction repos as [|repo repos IH]; intros results; simpl.
  - by intros ?%not_elem_of_nil.
  - destruct (is_LegacyRepository repo) eqn:Hlegacy.
    + intros [Hin Hr]%IH. split; [by apply list_elem_of_further | done].
    + destruct (repo_search repo query) as [e|found]; simpl.
      * intros ->%list_elem_of_singleton. split; [apply list_elem_of_here | done].
      * specialize (IH (results ++ found)).
        destruct (PoolSearch.scan_search _ _ repos query (results ++ found))
          as [asked res].
        simpl in *. intros [->|Hin]%elem_of_cons.
        -- split; [apply list_elem_of_here | done].
        -- destruct (IH Hin). split; [by apply list_elem_of_further | done].
Qed.

Lemma scan_search_gathers repos query results :
  (∀ r, r ∈ repos → is_LegacyRepository r = false →
        ∃ found, repo_search r query = inr found) →
  PoolSearch.scan_search is_LegacyRepository repo_search repos query results
  = (filter (λ r, is_LegacyRepository r = false) repos,
     inr (results
          ++ concat ((λ r, match repo_search r query with
                           | inr found => found
                           | inl _ => []
                           end)
                     <$> filter (λ r, is_LegacyRepository r = false) repos))).
Proof.
  revert results. induction repos as [|repo repos IH]; intros results Hall.
  - simpl. by rewrite app_nil_r.
  - cbn [PoolSearch.scan_search]. rewrite filter_cons.
    destruct (is_LegacyRepository repo) eqn:Hlegacy.
    + rewrite decide_False by done. apply IH. intros r Hr. apply Hall.
      by apply list_elem_of_further.
    + rewrite decide_True by done.
      destruct (Hall repo (list_elem_of_here _ _) Hlegacy) as [found Hfound].
      rewrite Hfound, IH by (intros r Hr; apply Hall; by apply list_elem_of_further).
      cbn [fmap list_fmap concat]. by rewrite Hfound, app_assoc.
Qed.

(** X24: [Pool.search] never asks a legacy repository, in this pool or
    in any pool up the parent chain. A pool without parent whose other
    clients all answer returns their results concatenated in list
    order; with a parent whose search answers too, the parent's results
    follow the pool's own. *)
Theorem search_skips_legacy_repositories self query :
  let own repos :=
    concat ((λ r, match repo_search r query with
                  | inr found => found
                  | inl _ => []
                  end)
            <$> filter (λ r, is_LegacyRepository r = false) repos) in
  (∀ r, r ∈ fst (PoolSearch.search is_LegacyRepository repo_search self query) →
        is_LegacyRepository r = false)
  ∧ ((∀ r, r ∈ Pool._repositories self → is_LegacyRepository r = false →
           ∃ found, repo_search r query = inr found) →
     match Pool._parent self with
     | None =>
         PoolSearch.search is_LegacyRepository repo_search self query
         = (filter (λ r, is_LegacyRepository r = false) (Pool._repositories self),
            inr (own (Pool._repositories self)))
     | Some parent =>
         ∀ more,
           snd (PoolSearch.search is_LegacyRepository repo_search parent query)
           = inr more →
           snd (PoolSearch.search is_LegacyRepository repo_search self query)
           = inr (own (Pool._repositories self) ++ more)
     end).
Proof.
  intros own. split.
  - induction self as [l repos d hp b i pk|l repos d hp b parent i pk IH]
      using Pool_parent_ind; intros r; cbn [PoolSearch.search].
    + pose proof (scan_search_asks_no_legacy repos query [] r) as Hscan.
      destruct (PoolSearch.scan_search _ _ repos query []) as [asked [e|results]];
        simpl in *; intros Hr; by destruct (Hscan Hr).
    + pose proof (scan_search_asks_no_legacy repos query [] r) as Hscan.
      destruct (PoolSearch.scan_search _ _ repos query []) as [asked [e|results]];
        simpl in *; [intros Hr; by destruct (Hscan Hr)|].
      destruct (PoolSearch.search _ _ parent query) as [asked' res]. simpl in *.
      intros [Hr|Hr]%elem_of_app; [by destruct (Hscan Hr) | by apply IH].
  - destruct self as [l repos d hp b parent i pk]. cbn [Pool._repositories Pool._parent].
    intros Hall. cbn [PoolSearch.search].
    rewrite (scan_search_gathers repos query [] Hall). simpl.
    destruct parent as [parent|]; [|by rewrite app_nil_r].
    intros more Hmore.
    destruct (PoolSearch.search _ _ parent query) as [asked' res]. simpl in *.
    by subst res.
Qed.

End pool_search.

(** * The further properties on concrete runs *)

Section further_pool_runs.
#[local] Existing Instance Sample.semver.

Lemma pool_built_by_additions_resolves_names_witness :
  let self := Sample.pool_of SampleIndex.three_tiers in
  (forallb is_addition SampleIndex.three_tiers = true
   ∧ apply_mutations (Pool.empty_pool None) SampleIndex.three_tiers = inr self
   ∧ Pool.has_repository self (Some "B") = true)
  ∧ ∃ r, Pool.repository self (Some "B") = inr r
       ∧ Pool.repository_name r = Some "b".
Proof.
  intros self. split; [repeat split; reflexivity|].
  destruct (pool_built_by_additions_resolves_names SampleIndex.three_tiers None self
              eq_refl eq_refl) as (_ & _ & Hresolve).
  apply (Hresolve (Some "B")). reflexivity.
Defined.


Lemma added_repository_is_found_witness :
  let self := Sample.pool_of SampleIndex.three_tiers in
  let new := Sample.silent "Fresh" in
  ∃ self',
    (boundary_in_range self
     ∧ Pool.add_repository self new false false = inr self')
    ∧ Pool.has_repository self' (Some "Fresh") = true
    ∧ Pool.repository self' (Some "Fresh") = inr new.
Proof.
  intros self new.
  destruct (Pool.add_repository self new false false) as [e|self'] eqn:Hadd;
    [discriminate Hadd|].
  assert (Hb : boundary_in_range self).
  { intros b Hb. vm_compute in Hb. injection Hb as <-. vm_compute. lia. }
  exists self'. split; [by split|].
  exact (added_repository_is_found self new false false self' Hb Hadd).
Defined.


Lemma remove_repository_takes_named_client_witness :
  let self := Sample.pool_of SampleIndex.three_tiers in
  (Pool.repository self (Some "A") = inr (Sample.silent "a")
   ∧ Pool.has_repository self (Some "nowhere") = false)
  ∧ (∃ before after self',
       Pool._repositories self = before ++ Sample.silent "a" :: after
       ∧ Pool.remove_repository self (Some "A") = inr self'
       ∧ Pool._repositories self' = before ++ after)
  ∧ Pool.remove_repository self (Some "nowhere") = inr self.
Proof.
  intros self. split; [split; reflexivity|]. split.
  - destruct (proj1 (remove_repository_takes_named_client self (Some "A"))
                (Sample.silent "a") eq_refl)
      as (before & after & self' & Hsplit & _ & Hremove & Hrest & _).
    by exists before, after, self'.
  - apply (proj2 (remove_repository_takes_named_client self (Some "nowhere"))).
    reflexivity.
Defined.

Lemma package_keeps_repositories_witness :
  let self := Sample.bypassing_pool in
  let found := Sample.release "demo" "1.0" in
  Pool.package self "demo" "1.0" (ManagedProject ".") None None
  = ([Sample.serving "first" ["1.0"]], inr (Some found, Pool.record_package self found))
  ∧ Pool._repositories (Pool.record_package self found) = Pool._repositories self
  ∧ Pool._lookup (Pool.record_package self found) = Pool._lookup self.
Proof.
  intros self found. split; [reflexivity|].
  destruct (package_keeps_repositories self "demo" "1.0" (ManagedProject ".") None None
              [Sample.serving "first" ["1.0"]] (Some found)
              (Pool.record_package self found) eq_refl)
    as (Hlookup & Hrepos & _).
  by split.
Defined.

Lemma package_scans_all_repositories_witness :
  let self := Sample.pool_of [Add (Sample.silent "first") false false;
                              Add (Sample.serving "last" ["1.0"]) false true] in
  let quiet := Sample.pool_of [Add (Sample.silent "first") false false;
                               Add (Sample.silent "last") false true] in
  (is_ManagedProject (ManagedProject ".") = true
   ∧ Pool._repositories self = [Sample.silent "first"] ++ [Sample.serving "last" ["1.0"]]
   ∧ Pool._parent quiet = None)
  ∧ Pool.package self "demo" "1.0" (ManagedProject ".") None None
    = ([Sample.silent "first"] ++ [Sample.serving "last" ["1.0"]],
       inr (Some (Sample.release "demo" "1.0"),
            Pool.record_package self (Sample.release "demo" "1.0")))
  ∧ Pool.package quiet "demo" "1.0" (ManagedProject ".") None None
    = (Pool._repositories quiet,
       inl (PackageNotFound "Package demo (1.0) not found.")).
Proof.
  intros self quiet. split; [repeat split; reflexivity|].
  assert (Hpass : ∀ name, passes (Sample.silent name) "demo" "1.0" (ManagedProject ".") None).
  { intros name. left. by eexists. }
  split.
  - apply (proj1 (package_scans_all_repositories self "demo" "1.0" (ManagedProject ".")
                    None eq_refl)
             [Sample.silent "first"] (Sample.serving "last" ["1.0"]) []);
      [reflexivity | | reflexivity].
    intros r Hr. apply list_elem_of_singleton in Hr. subst r. apply Hpass.
  - apply (proj2 (package_scans_all_repositories quiet "demo" "1.0" (ManagedProject ".")
                    None eq_refl)); [|reflexivity].
    intros r Hr. change (Pool._repositories quiet)
      with [Sample.silent "first"; Sample.silent "last"] in Hr.
    apply elem_of_cons in Hr as [->|Hr]; [apply Hpass|].
    apply list_elem_of_singleton in Hr. subst r. apply Hpass.
Defined.

Lemma package_with_unknown_hint_witness :
  let self := Sample.pool_of SampleIndex.three_tiers in
  (is_ManagedProject (ManagedProject ".") = true
   ∧ Pool._ignore_repository_names self = false
   ∧ Pool.has_repository self (Some "Elsewhere") = false)
  ∧ Pool.package self "demo" "1.0" (ManagedProject ".") None (Some "Elsewhere")
    = ([], inl (ValueError ("Repository " +:+ quoted "elsewhere" +:+ " does not exist."))).
Proof.
  intros self. split; [repeat split; reflexivity|].
  exact (package_with_unknown_hint self "demo" "1.0" (ManagedProject ".") None
           "Elsewhere" eq_refl eq_refl eq_refl).
Defined.

Lemma find_packages_with_source_name_witness :
  let self := Sample.pool_of [Add (Sample.silent "first") false false;
                              Add (Sample.serving "second" ["1.0"]) false false] in
  let named source :=
    {| dep_name := "demo"; dep_constraint := ConstraintNone;
       dep_source_name := Some source; dep_allows_prereleases := false |} in
  (Pool._ignore_repository_names self = false
   ∧ Pool.repository self (Some "First") = inr (Sample.silent "first")
   ∧ Pool.has_repository self (Some "Third") = false)
  ∧ Pool.find_packages self (named "First") = ([Sample.silent "first"], inr [])
  ∧ Pool.find_packages self (named "Third")
    = ([], inl (ValueError ("Repository " +:+ quoted "third" +:+ " does not exist."))).
Proof.
  intros self named. split; [repeat split; reflexivity|]. split.
  - exact (proj1 (find_packages_with_source_name self (named "First") "First"
                    eq_refl eq_refl) (Sample.silent "first") eq_refl).
  - exact (proj2 (find_packages_with_source_name self (named "Third") "Third"
                    eq_refl eq_refl) eq_refl).
Defined.

Lemma search_skips_legacy_repositories_witness :
  let self := Sample.pool_of [Add (Sample.silent "internal") false false;
                              Add (Sample.silent "legacy") false false;
                              Add (Sample.silent "mirror") false true] in
  Pool._parent self = None
  ∧ PoolSearch.search SampleIndex.legacy_by_name SampleIndex.search_by_name self "demo"
    = ([Sample.silent "internal"; Sample.silent "mirror"],
       inr [Sample.release "demo" "internal"; Sample.release "demo" "mirror"])
  ∧ SampleIndex.legacy_by_name (Sample.silent "internal") = false.
Proof.
  intros self. split; [reflexivity|]. split.
  - apply (proj2 (search_skips_legacy_repositories SampleIndex.legacy_by_name
                    SampleIndex.search_by_name self "demo")).
    intros r _ _. by eexists.
  - apply (proj1 (search_skips_legacy_repositories SampleIndex.legacy_by_name
                    SampleIndex.search_by_name self "demo")).
    vm_compute. apply list_elem_of_here.
Defined.

End further_pool_runs.

Section further_legacy_runs.
#[local] Existing Instance Sample.semver.
#[local] Existing Instance Sample.index_lib.
#[local] Existing Instance SampleIndex.release_lib.

Lemma unnamed_lookup_asks_default_and_primaries_witness :
  let self := Sample.pool_of SampleIndex.three_tiers in
  let demo := Sample.wants "demo" ConstraintNone in
  (forallb is_addition SampleIndex.three_tiers = true
   ∧ apply_mutations (Pool.empty_pool None) SampleIndex.three_tiers = inr self
   ∧ dep_source_name demo = None)
  ∧ ∃ asked,
      asked `prefix_of` [Sample.silent "B"; Sample.silent "a"]
      ∧ (fst (Pool.find_packages self demo) = asked
         ∨ ∃ up, Pool._parent self = Some up
                 ∧ fst (Pool.find_packages self demo)
                   = asked ++ fst (Pool.find_packages up demo)).
Proof.
  intros self demo. split; [repeat split; reflexivity|].
  exact (unnamed_lookup_asks_default_and_primaries SampleIndex.three_tiers None self
           demo eq_refl eq_refl eq_refl).
Defined.

Lemma clean_link_encodes_once_witness :
  (string_forall Page.clean_safe "http://x/a%20b" = true
   ∧ string_forall (λ c, 16 <=? nat_of_ascii c) "http://x/a b" = true)
  ∧ Page.clean_link "http://x/a%20b" = "http://x/a%20b"
  ∧ Page.clean_link (Page.clean_link "http://x/a b") = Page.clean_link "http://x/a b".
Proof.
  split; [split; reflexivity|]. split.
  - apply (proj1 (clean_link_encodes_once "http://x/a%20b")). reflexivity.
  - apply (proj2 (clean_link_encodes_once "http://x/a b")). reflexivity.
Defined.

Lemma links_come_from_supported_anchors_witness :
  let page := Page.init "http://x/demo" "demo-1.0.tar.gz notes.txt" [] in
  let link := {| link_url := "http://x/demo/demo-1.0.tar.gz";
                 link_requires_python := None |} in
  link ∈ Page.links page
  ∧ link_ext (link_url link) ∈ Page.SUPPORTED_FORMATS
  ∧ length (Page.links page)
    ≤ length (parsed_anchors (Page._content page) (Page._encoding page)).
Proof.
  intros page link.
  assert (Hlink : link ∈ Page.links page) by (vm_compute; apply list_elem_of_here).
  split; [exact Hlink|]. split.
  - apply (proj1 (links_come_from_supported_anchors page) link Hlink).
  - apply (proj2 (links_come_from_supported_anchors page)).
Defined.

Lemma version_regex_finds_digit_led_version_witness :
  Page.VERSION_REGEX_group2 "my-pkg-2-1.0b1 " = Some "2-1.0b1"
  ∧ (∃ name rest,
       "my-pkg-2-1.0b1 " = name +:+ String "-" ("2-1.0b1" +:+ rest)
       ∧ name ≠ ""
       ∧ string_forall Page.name_char name = true
       ∧ Page.starts_with_digit "2-1.0b1" = true
       ∧ string_forall Page.version_char "2-1.0b1" = true
       ∧ match rest with
         | String c _ => Page.version_char c = false
         | EmptyString => True
         end)
  ∧ is_Some (Page.VERSION_REGEX_group2 "name-1.2.3").
Proof.
  split; [reflexivity|]. split.
  - apply (proj1 (version_regex_finds_digit_led_version "my-pkg-2-1.0b1 ") "2-1.0b1").
    reflexivity.
  - apply (proj2 (version_regex_finds_digit_led_version "name-1.2.3")).
    exists "name", "1.2.3". repeat split; [discriminate|reflexivity..].
Defined.

Lemma page_base_url_ends_with_slash_witness :
  (endswith "http://x/demo" "/" = false ∧ endswith "http://x/demo/" "/" = true)
  ∧ Page._url (Page.init "http://x/demo" "" []) = "http://x/demo/"
  ∧ Page._url (Page.init "http://x/demo/" "" []) = "http://x/demo/".
Proof.
  split; [split; reflexivity|]. split.
  - apply (proj2 (proj2 (page_base_url_ends_with_slash "http://x/demo" "" []))).
    reflexivity.
  - apply (proj1 (proj2 (page_base_url_ends_with_slash "http://x/demo/" "" []))).
    reflexivity.
Defined.

Lemma legacy_init_strips_trailing_slashes_witness :
  LegacyRepository.init "pypi" "http://x/"
  = inl (ValueError "The name [pypi] is reserved for repositories")
  ∧ ∃ self, LegacyRepository.init "repo" "http://x/simple//" = inr self
      ∧ LegacyRepository._name self = "repo"
      ∧ endswith (LegacyRepository._url self) "/" = false
      ∧ (∃ k, "http://x/simple//" = LegacyRepository._url self +:+ slashes k)
      ∧ LegacyRepository._matches self = ∅.
Proof.
  split.
  - apply (proj1 (legacy_init_strips_trailing_slashes "pypi" "http://x/")). reflexivity.
  - apply (proj2 (legacy_init_strips_trailing_slashes "repo" "http://x/simple//")).
    discriminate.
Defined.

Lemma found_packages_carry_provenance_witness :
  let self := Sample.legacy "repo" "http://x/" in
  let index := Sample.server 200 "django-3.2.tar.gz" in
  let django := Sample.wants "django" ConstraintNone in
  let package := LegacyRepository.make_package self django (Sample.version "3.2") in
  fst (LegacyRepository.find_packages self index 0 django) = inr [package]
  ∧ pkg_name package = "django"
  ∧ pkg_source_type package = Some "legacy"
  ∧ pkg_source_reference package = Some "repo"
  ∧ pkg_source_url package = Some "http://x".
Proof.
  intros self index django package.
  assert (Hfind : fst (LegacyRepository.find_packages self index 0 django)
                  = inr [package]) by (vm_compute; reflexivity).
  split; [exact Hfind|].
  apply (found_packages_carry_provenance self index 0 django [package] Hfind package).
  apply list_elem_of_here.
Defined.

Lemma cache_hit_skips_network_witness :
  let self := Sample.legacy "repo" "http://x/" in
  let index := Sample.server 200 "django-3.2.tar.gz" in
  let django := Sample.wants "django" ConstraintNone in
  let warm := snd (LegacyRepository.find_packages self index 0 django) in
  (LegacyRepository.normalize_constraint (dep_constraint django) = inr Sample.Any
   ∧ LegacyRepository.store_has 4 (LegacyRepository._matches warm)
       (LegacyRepository.cache_key django Sample.Any) = true)
  ∧ LegacyRepository.find_packages warm index 4 django
    = LegacyRepository.find_packages warm (Sample.server 500 "") 4 django.
Proof.
  intros self index django warm. split; [split; vm_compute; reflexivity|].
  unshelve epose proof
    (cache_hit_skips_network warm index (Sample.server 500 "") 4 django Sample.Any _ _)
    as Hhit; [vm_compute; reflexivity..|].
  exact (proj1 Hhit).
Defined.

Lemma find_packages_touches_own_key_only_witness :
  let self := Sample.legacy "repo" "http://x/" in
  let index := Sample.server 200 "django-3.2.tar.gz flask-2.1.tar.gz" in
  let django := Sample.wants "django" ConstraintNone in
  let flask := Sample.wants "flask" ConstraintNone in
  let warm := snd (LegacyRepository.find_packages self index 0 django) in
  (LegacyRepository.normalize_constraint (dep_constraint flask) = inr Sample.Any
   ∧ "django" ≠ LegacyRepository.cache_key flask Sample.Any)
  ∧ LegacyRepository._matches (snd (LegacyRepository.find_packages warm index 1 flask))
      !! "django"
    = LegacyRepository._matches warm !! "django".
Proof.
  intros self index django flask warm.
  assert (Hkey : "django" ≠ LegacyRepository.cache_key flask Sample.Any)
    by (vm_compute; discriminate).
  split; [split; [reflexivity | exact Hkey]|].
  assert (Hc : LegacyRepository.normalize_constraint (dep_constraint flask)
               = inr Sample.Any) by reflexivity.
  exact (proj2 (proj2 (find_packages_touches_own_key_only warm index 1 flask))
           Sample.Any "django" Hc Hkey).
Defined.

Lemma found_versions_are_distinct_and_complete_witness :
  let self := Sample.legacy "repo" "http://x/" in
  let body := "django-3.2.tar.gz django-3.2-py3-none-any.whl django-4.0a1.tar.gz" in
  let index := Sample.server 200 body in
  let django := Sample.wants "django" ConstraintNone in
  let page := Page.init "http://x/django/" body [] in
  let packages := [LegacyRepository.make_package self django (Sample.version "3.2")] in
  (LegacyRepository.normalize_constraint (dep_constraint django) = inr Sample.Any
   ∧ LegacyRepository.store_has 0 (LegacyRepository._matches self)
       (LegacyRepository.cache_key django Sample.Any) = false
   ∧ fst (LegacyRepository._get self index "/django/") = inr (Some page)
   ∧ fst (LegacyRepository.find_packages self index 0 django) = inr packages)
  ∧ NoDup (pkg_version <$> packages)
  ∧ (∀ v, v ∈ pkg_version <$> packages → v ∈ Page.versions page).
Proof.
  intros self body index django page packages.
  split; [repeat split; vm_compute; reflexivity|].
  unshelve epose proof
    (found_versions_are_distinct_and_complete self index 0 django Sample.Any page
       packages _ _ _ _) as Hfound; [vm_compute; reflexivity..|].
  split; [exact (proj1 Hfound) | exact (proj1 (proj2 Hfound))].
Defined.

Lemma expired_cache_entry_is_fetched_again_witness :
  let self := Sample.legacy "repo" "http://x/" in
  let index := Sample.server 200 "django-3.2.tar.gz" in
  let django := Sample.wants "django" ConstraintNone in
  let warm := snd (LegacyRepository.find_packages self index 0 django) in
  (LegacyRepository.store_has 4 (LegacyRepository._matches warm) "django" = true
   ∧ 0 + 5 ≤ 5
   ∧ fst (LegacyRepository._get warm (Sample.server 404 "") "/django/") = inr None)
  ∧ LegacyRepository.store_has 5 (LegacyRepository._matches warm)
      (LegacyRepository.cache_key django Sample.Any) = false
  ∧ fst (LegacyRepository.find_packages warm (Sample.server 404 "") 5 django) = inr [].
Proof.
  intros self index django warm.
  split; [split; [vm_compute; reflexivity | split; [lia | vm_compute; reflexivity]]|].
  unshelve epose proof
    (expired_cache_entry_is_fetched_again self index (Sample.server 404 "") 0 5 django
       Sample.Any (Page.init "http://x/django/" "django-3.2.tar.gz" []) _ _ _ _)
    as Hlate; [vm_compute; reflexivity.. | lia |].
  split; [exact (proj1 Hlate)|].
  apply (proj1 (proj2 Hlate)). vm_compute. reflexivity.
Defined.

Lemma found_links_match_package_version_witness :
  let self := Sample.legacy "repo" "http://x/" in
  let index := Sample.server 200 "django-3.2.tar.gz django-4.0a1.tar.gz notes.txt" in
  let package := Sample.release "django" "3.2" in
  let link := {| link_url := "http://x/django/django-3.2.tar.gz";
                 link_requires_python := None |} in
  fst (LegacyRepository.find_links_for_package self index package) = inr [link]
  ∧ Page.link_version link = Some (Sample.version "3.2")
  ∧ link_ext (link_url link) ∈ Page.SUPPORTED_FORMATS.
Proof.
  intros self index package link.
  assert (Hfind : fst (LegacyRepository.find_links_for_package self index package)
                  = inr [link]) by (vm_compute; reflexivity).
  split; [exact Hfind|].
  apply (proj1 (found_links_match_package_version self index package) [link] Hfind
           link).
  apply list_elem_of_here.
Defined.

Lemma release_info_needs_page_and_link_witness :
  let self := Sample.legacy "repo" "http://x/" in
  let index :=
    Sample.server 200 "django-3.2.tar.gz#sha256=abc django-3.2-py3-none-any.whl" in
  let project := ManagedProject "." in
  (fst (LegacyRepository._get self (Sample.server 404 "") "/django/") = inr None
   ∧ ∃ info,
       fst (ReleaseInfo._get_release_info self index "Django" "3.2" project) = inr info)
  ∧ fst (ReleaseInfo._get_release_info self (Sample.server 404 "") "Django" "3.2" project)
    = inl (PackageNotFound ("No package named " +:+ quoted "Django"))
  ∧ ∃ info,
      fst (ReleaseInfo._get_release_info self index "Django" "3.2" project) = inr info
      ∧ info_name info = "Django"
      ∧ info_version info = "3.2"
      ∧ info_files info ≠ [].
Proof.
  intros self index project.
  assert (Hinfo : ∃ info,
    fst (ReleaseInfo._get_release_info self index "Django" "3.2" project) = inr info)
    by (eexists; vm_compute; reflexivity).
  split; [split; [vm_compute; reflexivity | exact Hinfo]|]. split.
  - apply (proj1 (release_info_needs_page_and_link self (Sample.server 404 "")
                    "Django" "3.2" project)).
    vm_compute. reflexivity.
  - destruct Hinfo as [info Hinfo]. exists info. split; [exact Hinfo|].
    destruct (proj2 (proj2 (release_info_needs_page_and_link self index
                              "Django" "3.2" project)) info Hinfo)
      as (Hname & Hversion & Hfiles & _).
    split; [exact Hname|]. split; [exact Hversion | exact Hfiles].
Defined.

End further_legacy_runs.
